(** * statsd_bridge: the StatsD line parser, the listeners and the event queue

    A shallow embedding of [pkg/line] ([LineToEvents] and its helpers) and of
    [pkg/listener] ([HandlePacket], [HandleConn]), together with the event
    queue the listeners feed.

    Conventions of the embedding:
    - a Go [string] is a sequence of bytes: [string] of the Standard Library,
      whose characters are the 256 values of [ascii];
    - a [float64] is a primitive binary64 float ([PrimFloat.float]);
    - a [map[string]string] is a [gmap string string];
    - a Prometheus counter is the number of times [Inc] was called on it, a
      [CounterVec] a map from the label value to such a number;
    - the events of a line share its [labels] map; an event records the
      map as it is when the event is built, which is the map the line ends
      with (proved among the properties);
    - loggers only write debug output and are left out. *)

From Stdlib Require Import ZArith Floats Ascii String Bool Lia.
From stdpp Require Import base gmap strings list.

Local Open Scope Z_scope.

(** ** Go's [strings] package on byte strings *)

Module strings.

(** [s[:i]] and [s[i+1:]] for the first index [i] whose byte satisfies [p]. *)
Fixpoint cut_at (p : ascii → bool) (s : string) : option (string * string) :=
  match s with
  | EmptyString => None
  | String c s' =>
      if p c then Some (EmptyString, s')
      else match cut_at p s' with
           | Some (a, b) => Some (String c a, b)
           | None => None
           end
  end.

Definition cut (s : string) (sep : ascii) : option (string * string) :=
  cut_at (Ascii.eqb sep) s.

(** [strings.Split(s, sep)] for a separator of one byte: all the fields,
    empty ones included; [Split "" sep] is one empty field. *)
Fixpoint Split (s : string) (sep : ascii) : list string :=
  match s with
  | EmptyString => [EmptyString]
  | String c s' =>
      if Ascii.eqb c sep then EmptyString :: Split s' sep
      else match Split s' sep with
           | p :: ps => String c p :: ps
           | [] => [String c EmptyString]
           end
  end.

(** [strings.SplitN(s, sep, 2)]: cut at the first separator only. *)
Definition SplitN2 (s : string) (sep : ascii) : list string :=
  match cut s sep with
  | Some (a, b) => [a; b]
  | None => [s]
  end.

(** [strings.Contains(s, substr)]. *)
Fixpoint Contains (s substr : string) : bool :=
  String.prefix substr s ||
  match s with
  | EmptyString => false
  | String _ s' => Contains s' substr
  end.

(** [strings.Index(s, c)] for a one-byte [c]: the first index, or [-1]. *)
Fixpoint Index (s : string) (c : ascii) : Z :=
  match s with
  | EmptyString => -1
  | String c' s' =>
      if Ascii.eqb c' c then 0
      else let i := Index s' c in if i <? 0 then -1 else i + 1
  end.

(** [strings.Count(s, c)] for a one-byte [c]. *)
Fixpoint Count (s : string) (c : ascii) : nat :=
  match s with
  | EmptyString => 0%nat
  | String c' s' => ((if Ascii.eqb c' c then 1 else 0) + Count s' c)%nat
  end.

(** [strings.HasSuffix(s, suffix)]:
    [len(s) >= len(suffix) && s[len(s)-len(suffix):] == suffix]. *)
Definition HasSuffix (s suffix : string) : bool :=
  (String.length suffix <=? String.length s)%nat
  && String.eqb (String.substring (String.length s - String.length suffix)
                                  (String.length suffix) s) suffix.

End strings.

(** ** Go's [unicode/utf8.ValidString] *)

Module utf8.

(** The second byte of a sequence that starts with [b0] has to lie in
    [lo..hi]; the bytes after it are plain continuation bytes. [size] is
    the length of the whole sequence ([first] and [acceptRanges] of the Go
    package). *)
Definition acceptRange (b0 : N) : option (nat * N * N) :=
  (if (0xC2 <=? b0) && (b0 <=? 0xDF) then Some (2%nat, 0x80, 0xBF)
   else if b0 =? 0xE0 then Some (3%nat, 0xA0, 0xBF)
   else if b0 =? 0xED then Some (3%nat, 0x80, 0x9F)
   else if (0xE1 <=? b0) && (b0 <=? 0xEF) then Some (3%nat, 0x80, 0xBF)
   else if b0 =? 0xF0 then Some (4%nat, 0x90, 0xBF)
   else if (0xF1 <=? b0) && (b0 <=? 0xF3) then Some (4%nat, 0x80, 0xBF)
   else if b0 =? 0xF4 then Some (4%nat, 0x80, 0x8F)
   else None)%N.

Definition within (lo hi : N) (c : ascii) : bool :=
  (lo <=? N_of_ascii c)%N && (N_of_ascii c <=? hi)%N.

Definition cont : ascii → bool := within 0x80 0xBF.

Fixpoint ValidString (s : string) : bool :=
  match s with
  | EmptyString => true
  | String c0 s1 =>
      if (N_of_ascii c0 <? 0x80)%N then ValidString s1
      else match acceptRange (N_of_ascii c0) with
           | Some (2%nat, lo, hi) =>
               match s1 with
               | String c1 s2 => within lo hi c1 && ValidString s2
               | _ => false
               end
           | Some (3%nat, lo, hi) =>
               match s1 with
               | String c1 (String c2 s3) =>
                   within lo hi c1 && cont c2 && ValidString s3
               | _ => false
               end
           | Some (4%nat, lo, hi) =>
               match s1 with
               | String c1 (String c2 (String c3 s4)) =>
                   within lo hi c1 && cont c2 && cont c3 && ValidString s4
               | _ => false
               end
           | _ => false
           end
  end.

End utf8.

(** ** Conversion of a [float64] to [int] *)

Definition minInt : Z := - 2 ^ 63.
Definition maxInt : Z := 2 ^ 63 - 1.

(** The integer part of a finite float (truncation toward zero). *)
Definition trunc_float (f : float) : option Z :=
  match Prim2SF f with
  | S754_zero _ => Some 0
  | S754_finite s m e =>
      let a := Z.shiftl (Z.pos m) e in Some (if s then - a else a)
  | _ => None
  end.

(** [int(f)]. Inside the range of [int] the conversion truncates. Outside
    of it (and on NaN and the infinities) the Go specification leaves the
    result to the implementation; the gc compiler on amd64 emits CVTTSD2SQ,
    whose answer is then the "integer indefinite" value [minInt]. *)
Definition int_of_float64 (f : float) : Z :=
  match trunc_float f with
  | Some z => if (minInt <=? z) && (z <=? maxInt) then z else minInt
  | None => minInt
  end.

(** ** package event *)

Module event.

Inductive Event :=
| CounterEvent (CMetricName : string) (CValue : float)
               (CLabels : gmap string string)
| GaugeEvent (GMetricName : string) (GValue : float) (GRelative : bool)
             (GLabels : gmap string string)
| TimerEvent (TMetricName : string) (TValue : float)
             (TLabels : gmap string string).

Definition Events := list Event.

(** The [Labels()] method of the events. *)
Definition Labels (e : Event) : gmap string string :=
  match e with
  | CounterEvent _ _ l | GaugeEvent _ _ _ l | TimerEvent _ _ l => l
  end.

(** The [MetricName()] method of the events. *)
Definition MetricName (e : Event) : string :=
  match e with
  | CounterEvent n _ _ | GaugeEvent n _ _ _ | TimerEvent n _ _ => n
  end.

(** The [EventHandler] interface: [Queue(events, &eventsFlushed)]. The
    handler may increment the counter it is handed. *)
Class EventHandler (H : Type) :=
  Queue : Events → nat → H → H * nat.

End event.
Export event.

(** ** Go's [strconv.ParseFloat], decimal literals *)

Module strconv.

(** The error of [strconv.ParseFloat]. *)
Inductive NumError := ErrSyntax | ErrRange.

Definition digit (c : ascii) : option Z :=
  let n := Z.of_N (N_of_ascii c) in
  if (48 <=? n) && (n <=? 57) then Some (n - 48) else None.

(** Reads the leading digits of [s] into [acc]; [n] counts them. *)
Fixpoint digits (s : string) (acc n : Z) : Z * Z * string :=
  match s with
  | String c s' =>
      match digit c with
      | Some d => digits s' (10 * acc + d) (n + 1)
      | None => (acc, n, s)
      end
  | EmptyString => (acc, n, s)
  end.

Definition sign (s : string) : bool * string :=
  match s with
  | String "+" r => (false, r)
  | String "-" r => (true, r)
  | _ => (false, s)
  end.

(** [[+-]digits[.digits][(e|E)[+-]digits]] with a digit in the mantissa:
    the sign, the mantissa as an integer and the decimal exponent. *)
Definition readFloat (s : string) : option (bool * Z * Z) :=
  let '(neg, s1) := sign s in
  let '(ip, n1, s2) := digits s1 0 0 in
  let '(mant, n2, s3) :=
    match s2 with
    | String "." r => digits r ip 0
    | _ => (ip, 0, s2)
    end in
  if n1 + n2 =? 0 then None
  else match s3 with
       | EmptyString => Some (neg, mant, - n2)
       | String c r =>
           if Ascii.eqb c "e" || Ascii.eqb c "E" then
             let '(eneg, r1) := sign r in
             let '(ev, n3, r2) := digits r1 0 0 in
             if (n3 =? 0) || negb (String.eqb r2 "") then None
             else Some (neg, mant, (if eneg then - ev else ev) - n2)
           else None
       end.

(** The binary64 float nearest to [n / d] (ties to even) for [0 < n] and
    [0 < d], as mantissa and binary exponent; the mantissa may reach
    [2^53]. *)
Definition nearest (n d : Z) : Z * Z :=
  let l := Z.log2 n - Z.log2 d in
  let scaled (e : Z) := if e <? 0 then (n * 2 ^ (- e), d) else (n, d * 2 ^ e) in
  let e0 := l - 52 in
  let e1 := if (let '(a, b) := scaled e0 in a / b <? 2 ^ 52) then e0 - 1 else e0 in
  let e := Z.max e1 (-1074) in
  let '(a, b) := scaled e in
  let q := a / b in
  let r := a mod b in
  let up := match 2 * r ?= b with
            | Lt => false
            | Gt => true
            | Eq => Z.odd q
            end in
  ((if up then q + 1 else q), e).

Definition lower (c : ascii) : ascii :=
  let n := N_of_ascii c in
  if ((65 <=? n) && (n <=? 90))%N then ascii_of_N (n + 32) else c.

Fixpoint toLower (s : string) : string :=
  match s with
  | EmptyString => EmptyString
  | String c s' => String (lower c) (toLower s')
  end.

Definition special (s : string) : option float :=
  let t := toLower s in
  if String.eqb t "inf" || String.eqb t "infinity"
     || String.eqb t "+inf" || String.eqb t "+infinity" then Some infinity
  else if String.eqb t "-inf" || String.eqb t "-infinity" then Some neg_infinity
  else if String.eqb t "nan" then Some nan
  else None.

(** [strconv.ParseFloat(s, 64)] on decimal literals and on the spellings
    of the infinities and of NaN: the nearest float and no error; [±Inf]
    and [ErrRange] for a literal beyond the largest float; [0] and
    [ErrSyntax] for anything else. Hexadecimal literals are outside of
    this fragment. *)
Definition ParseDecimal (s : string) : float * option NumError :=
  match special s with
  | Some f => (f, None)
  | None =>
      match readFloat s with
      | None => (0%float, Some ErrSyntax)
      | Some (neg, mant, exp10) =>
          let signed (f : float) := if neg then (- f)%float else f in
          if mant =? 0 then (signed 0%float, None)
          else
            (* 10^lo <= mant * 10^exp10 < 10^hi: far beyond the floats, or
               far below them, without computing the power of ten *)
            let lo := Z.log2 mant * 3 / 10 + exp10 in
            let hi := (Z.log2 mant + 1) / 3 + 1 + exp10 in
            if 310 <=? lo then (signed infinity, Some ErrRange)
            else if hi <=? -325 then (signed 0%float, None)
            else
              let '(m, e) :=
                if exp10 <? 0 then nearest mant (10 ^ (- exp10))
                else nearest (mant * 10 ^ exp10) 1 in
              if 2 ^ 1024 <=? Z.shiftl m e then (signed infinity, Some ErrRange)
              else match m with
                   | Z.pos p => (SF2Prim (S754_finite neg p e), None)
                   | _ => (signed 0%float, None)
                   end
      end
  end.

(** [strconv.Atoi(s)] with an [int] of 64 bits: an optional sign and
    decimal digits, at least one. A value beyond the range of [int] is
    returned as the nearest bound along with [ErrRange]; anything else
    that is not such a literal is [0] and [ErrSyntax]. *)
Definition Atoi (s : string) : Z * option NumError :=
  let '(neg, s1) := sign s in
  let '(n, count, rest) := digits s1 0 0 in
  if (count =? 0) || negb (String.eqb rest "") then (0, Some ErrSyntax)
  else
    let v := if neg then - n else n in
    if v <? - 2 ^ 63 then (- 2 ^ 63, Some ErrRange)
    else if 2 ^ 63 - 1 <? v then (2 ^ 63 - 1, Some ErrRange)
    else (v, None).

End strconv.
Export strconv (NumError(..)).

(** ** package mapper *)

Module mapper.

Definition validByte (c : ascii) : bool :=
  let n := N_of_ascii c in
  (((97 <=? n) && (n <=? 122)) || ((65 <=? n) && (n <=? 90))
   || ((48 <=? n) && (n <=? 57)) || (n =? 95))%N.

Fixpoint replaceInvalid (s : string) : string :=
  match s with
  | EmptyString => EmptyString
  | String c s' =>
      if validByte c then String c (replaceInvalid s')
      else if utf8.cont c then replaceInvalid s'
      else String "_" (replaceInvalid s')
  end.

(** Modelled from the spec: [mapper.EscapeMetricName] is not among the
    sources. "Any character not in [[A-Za-z_][A-Za-z0-9_]*] is replaced
    with [_], and a leading digit is prefixed with [_]". A character is a
    rune of valid UTF-8: the byte that starts it becomes the [_] and its
    continuation bytes go. *)
Definition EscapeMetricName (metricName : string) : string :=
  match metricName with
  | EmptyString => EmptyString
  | String c _ =>
      if ((48 <=? N_of_ascii c) && (N_of_ascii c <=? 57))%N
      then String "_" (replaceInvalid metricName)
      else replaceInvalid metricName
  end.

End mapper.

(** ** package line *)

Module line.

(** The counters [LineToEvents] is handed. *)
Record Metrics := {
  sampleErrors : gmap string nat;
  samplesReceived : nat;
  tagErrors : nat;
  tagsReceived : nat;
}.

Definition count (reason : string) (v : gmap string nat) : nat :=
  default 0%nat (v !! reason).

(** [sampleErrors.WithLabelValues(reason).Inc()] *)
Definition incSampleErrors (reason : string) (m : Metrics) : Metrics :=
  {| sampleErrors := <[reason := S (count reason (sampleErrors m))]> (sampleErrors m);
     samplesReceived := samplesReceived m;
     tagErrors := tagErrors m;
     tagsReceived := tagsReceived m |}.

Definition incSamplesReceived (m : Metrics) : Metrics :=
  {| sampleErrors := sampleErrors m;
     samplesReceived := S (samplesReceived m);
     tagErrors := tagErrors m;
     tagsReceived := tagsReceived m |}.

Definition incTagsReceived (m : Metrics) : Metrics :=
  {| sampleErrors := sampleErrors m;
     samplesReceived := samplesReceived m;
     tagErrors := tagErrors m;
     tagsReceived := S (tagsReceived m) |}.

Definition setTagErrors (n : nat) (m : Metrics) : Metrics :=
  {| sampleErrors := sampleErrors m;
     samplesReceived := samplesReceived m;
     tagErrors := n;
     tagsReceived := tagsReceived m |}.

Definition buildEvent (statType metric : string) (value : float)
    (relative : bool) (labels : gmap string string) : Event + string :=
  if String.eqb statType "c" then inl (CounterEvent metric value labels)
  else if String.eqb statType "g" then inl (GaugeEvent metric value relative labels)
  else if String.eqb statType "ms" || String.eqb statType "h" || String.eqb statType "d"
  then inl (TimerEvent metric value labels)
  else if String.eqb statType "s" then inr "no support for StatsD sets"
  else inr ("bad stat type " +:+ statType).

Definition trimLeftHash (s : string) : string :=
  match s with
  | String "#" s' => s'
  | _ => s
  end.

(** The fields the comma loops of [parseNameTags] and [ParseDogStatsDTags]
    hand to [parseTag]: every comma at index [i] closes the tag
    [component[lastTagEndIndex:i]], and what follows the last comma is a
    tag only when it is not empty. *)
Definition tagFields (component : string) : list string :=
  let fields := strings.Split component "," in
  match last fields with
  | Some EmptyString => removelast fields
  | _ => fields
  end.

Section Parser.

(** [mapper.EscapeMetricName] and [strconv.ParseFloat(s, 64)] are not
    part of these packages; the parser is taken over any two such
    functions. *)
Variable EscapeMetricName : string → string.
Variable ParseFloat : string → float * option NumError.

(** The loop over the runes of [tag] stops at the first one equal to
    [separator]. The separators are ASCII, and a byte below 0x80 is
    always a rune of its own, so the first such rune is the first such
    byte. *)
Definition parseTag (tag : string) (separator : ascii)
    (labels : gmap string string) (tagErrors : nat)
    : gmap string string * nat :=
  if (String.length tag =? 0)%nat then (labels, S tagErrors)
  else match strings.cut tag separator with
       | Some (k, v) =>
           if (String.length k =? 0)%nat || (String.length v =? 0)%nat
           then (labels, S tagErrors)
           else (<[EscapeMetricName k := v]> labels, tagErrors)
       | None => (labels, S tagErrors)
       end.

Definition parseNameTags (component : string)
    (labels : gmap string string) (tagErrors : nat)
    : gmap string string * nat :=
  fold_left (λ st tag, parseTag tag "=" st.1 st.2)
            (tagFields component) (labels, tagErrors).

Definition ParseDogStatsDTags (component : string)
    (labels : gmap string string) (tagErrors : nat)
    : gmap string string * nat :=
  fold_left (λ st tag, parseTag (trimLeftHash tag) ":" st.1 st.2)
            (tagFields component) (labels, tagErrors).

(** Returns the metric name, with the labels and the tag error counter
    as [parseNameTags] left them. *)
Definition parseNameAndTags (name : string)
    (labels : gmap string string) (tagErrors : nat)
    : string * (gmap string string * nat) :=
  match strings.cut_at (λ c, Ascii.eqb c "#" || Ascii.eqb c ",") name with
  | Some (metric, tags) => (metric, parseNameTags tags labels tagErrors)
  | None => (name, (labels, tagErrors))
  end.

(** What the loop over [components[2:]] updates. *)
Record Sample := {
  value : float;
  multiplyEvents : Z;
  labels : gmap string string;
  metrics : Metrics;
}.

(** One round of [for _, component := range components[2:]], a [switch]
    on [component[0]]. On an empty component that index is out of range;
    none is empty here, since the loop before this one has then left the
    sample ([existsb] in [sample] below), and the first case is never
    taken. *)
Definition modifier (statType component : string) (s : Sample) : Sample :=
  match component with
  | EmptyString => s
  | String c0 payload =>
      if Ascii.eqb c0 "@" then
        let '(parsed, err) := ParseFloat payload in
        let m := match err with
                 | Some _ => incSampleErrors "invalid_sample_factor" (metrics s)
                 | None => metrics s
                 end in
        let samplingFactor := if (parsed =? 0)%float then 1%float else parsed in
        if String.eqb statType "g" then
          {| value := value s; multiplyEvents := multiplyEvents s;
             labels := labels s; metrics := m |}
        else if String.eqb statType "c" then
          {| value := (value s / samplingFactor)%float;
             multiplyEvents := multiplyEvents s;
             labels := labels s; metrics := m |}
        else if String.eqb statType "ms" || String.eqb statType "h"
                || String.eqb statType "d" then
          {| value := value s;
             multiplyEvents := int_of_float64 (1 / samplingFactor)%float;
             labels := labels s; metrics := m |}
        else
          {| value := value s; multiplyEvents := multiplyEvents s;
             labels := labels s; metrics := m |}
      else if Ascii.eqb c0 "#" then
        let '(labels', tagErrors') :=
          ParseDogStatsDTags payload (labels s) (tagErrors (metrics s)) in
        {| value := value s; multiplyEvents := multiplyEvents s;
           labels := labels'; metrics := setTagErrors tagErrors' (metrics s) |}
      else
        {| value := value s; multiplyEvents := multiplyEvents s;
           labels := labels s;
           metrics := incSampleErrors "invalid_sample_factor" (metrics s) |}
  end.

(** [for i := 0; i < multiplyEvents; i++]: the events appended, and the
    counters. *)
Fixpoint emit (n : nat) (statType metric : string) (value : float)
    (relative : bool) (labels : gmap string string) (m : Metrics)
    : Events * Metrics :=
  match n with
  | O => ([], m)
  | S n' =>
      match buildEvent statType metric value relative labels with
      | inl e =>
          let '(es, m') := emit n' statType metric value relative labels m in
          (e :: es, m')
      | inr _ =>
          emit n' statType metric value relative labels
               (incSampleErrors "illegal_event" m)
      end
  end.

(** The body of the loop labelled [samples]: the events one sample
    appends to [events], the labels map and the counters after it. *)
Definition sample (metric smpl : string)
    (st : gmap string string * Metrics)
    : Events * (gmap string string * Metrics) :=
  let m := incSamplesReceived st.2 in
  let components := strings.Split smpl "|" in
  if (length components <? 2)%nat || (4 <? length components)%nat then
    ([], (st.1, incSampleErrors "malformed_component" m))
  else
    match components with
    | valueStr :: statType :: rest =>
        let relative := (strings.Index valueStr "+" =? 0)
                        || (strings.Index valueStr "-" =? 0) in
        match ParseFloat valueStr with
        | (_, Some _) => ([], (st.1, incSampleErrors "malformed_value" m))
        | (v, None) =>
            if existsb (λ c, (String.length c =? 0)%nat) rest then
              ([], (st.1, incSampleErrors "malformed_component" m))
            else
              let s := fold_left (λ s c, modifier statType c s) rest
                         {| value := v; multiplyEvents := 1;
                            labels := st.1; metrics := m |} in
              let m' := if (0 <? size (labels s))%nat
                        then incTagsReceived (metrics s) else metrics s in
              let '(es, m'') := emit (Z.to_nat (multiplyEvents s)) statType
                                  metric (value s) relative (labels s) m' in
              (es, (labels s, m''))
        end
    | _ => ([], (st.1, incSampleErrors "malformed_component" m))
    end.

(** [for _, sample := range samples]. *)
Fixpoint samplesLoop (metric : string) (samples : list string)
    (st : gmap string string * Metrics)
    : Events * (gmap string string * Metrics) :=
  match samples with
  | [] => ([], st)
  | s :: rest =>
      let '(es, st') := sample metric s st in
      let '(es', st'') := samplesLoop metric rest st' in
      (es ++ es', st'')
  end.

Definition LineToEvents (line : string) (m : Metrics) : Events * Metrics :=
  if String.eqb line "" then ([], m)
  else
    match strings.SplitN2 line ":" with
    | [name; rest] =>
        if (String.length name =? 0)%nat || negb (utf8.ValidString line) then
          ([], incSampleErrors "malformed_line" m)
        else
          let '(metric, (labels, tagErrors')) :=
            parseNameAndTags name ∅ (tagErrors m) in
          let m1 := setTagErrors tagErrors' m in
          if strings.Contains rest "|#" then
            if (0 <? size labels)%nat then
              ([], incSampleErrors "mixed_tagging_styles" m1)
            else
              let '(es, st) := samplesLoop metric [rest] (labels, m1) in
              (es, st.2)
          else
            let '(es, st) :=
              samplesLoop metric (strings.Split rest ":") (labels, m1) in
            (es, st.2)
    | _ => ([], incSampleErrors "malformed_line" m)
    end.

End Parser.

End line.

(** ** package event: the event queue *)

Module queue.

(** Modelled from the spec: the [EventQueue] type and its methods are not
    among the sources, only their test is. The state is the buffer [q],
    the batches sent on the flush channel [C] so far (oldest first), the
    size threshold and the counter of flushes. The flush interval and the
    time of the last flush play no part in [Queue] and are left out. *)
Record EventQueue := {
  C : list Events;
  q : Events;
  flushThreshold : nat;
  eventsFlushed : nat;
}.

(** Modelled from the spec: [NewEventQueue(out, N, I, flushedCounter)]
    with an empty channel and a fresh counter. *)
Definition NewEventQueue (N : nat) : EventQueue :=
  {| C := []; q := []; flushThreshold := N; eventsFlushed := 0 |}.

(** Modelled from the spec: [Len()] is the "current buffered count". *)
Definition Len (eq : EventQueue) : nat := length (q eq).

(** Modelled from the spec: "cut off the leading [N] events and send them
    as one batch on [out], incrementing the flushed counter once per
    batch". *)
Definition cutBatch (eq : EventQueue) : EventQueue :=
  {| C := C eq ++ [take (flushThreshold eq) (q eq)];
     q := drop (flushThreshold eq) (q eq);
     flushThreshold := flushThreshold eq;
     eventsFlushed := S (eventsFlushed eq) |}.

(** Modelled from the spec: "while the internal buffer length is ≥ [N]",
    run for at most [fuel] rounds; [None] when the loop has not finished
    by then. *)
Fixpoint flushFull (fuel : nat) (eq : EventQueue) : option EventQueue :=
  if (length (q eq) <? flushThreshold eq)%nat then Some eq
  else match fuel with
       | O => None
       | S fuel' => flushFull fuel' (cutBatch eq)
       end.

(** Modelled from the spec: "[Queue(events)] — append events; while the
    internal buffer length is ≥ [N], cut off the leading [N] events and
    send them as one batch". With a threshold of at least one every round
    shortens the buffer, so its length bounds the number of rounds; with
    a threshold of zero the loop of the spec never ends, which is
    [None]. *)
Definition Queue (events : Events) (eq : EventQueue) : option EventQueue :=
  let eq' := {| C := C eq; q := q eq ++ events;
                flushThreshold := flushThreshold eq;
                eventsFlushed := eventsFlushed eq |} in
  flushFull (length (q eq')) eq'.

(** Modelled from the spec: "[FlushUnsafe()] — send whatever is buffered
    as a batch (...) skip if empty". *)
Definition FlushUnsafe (eq : EventQueue) : EventQueue :=
  match q eq with
  | [] => eq
  | _ => {| C := C eq ++ [q eq]; q := [];
            flushThreshold := flushThreshold eq;
            eventsFlushed := S (eventsFlushed eq) |}
  end.

(** One [Queue] call after the other. *)
Fixpoint QueueAll (calls : list Events) (eq : EventQueue) : option EventQueue :=
  match calls with
  | [] => Some eq
  | events :: calls' =>
      match Queue events eq with
      | Some eq' => QueueAll calls' eq'
      | None => None
      end
  end.

End queue.

(** ** package listener *)

Module listener.
Import line.

(** The counters the listeners are handed, those of the parser among
    them. *)
Record Telemetry := {
  udpPackets : nat;
  unixgramPackets : nat;
  linesReceived : nat;
  eventsFlushed : nat;
  tcpConnections : nat;
  tcpErrors : nat;
  tcpLineTooLong : nat;
  parser : Metrics;
}.

(** What [bufio.Reader.ReadLine] returns: [(line, isPrefix, nil)], or an
    error, which is [io.EOF] or another one. *)
Inductive ReadError := EOF | OtherError (msg : string).
Inductive ReadLineResult :=
| Line (line : string) (isPrefix : bool)
| Failed (err : ReadError).

(** A TCP connection: the results its reader is going to return, in
    order ([io.EOF] once they are used up), and whether [Close] was
    called. *)
Record Conn := {
  reads : list ReadLineResult;
  closed : bool;
}.

(** What [ReadFromUDP] and [ReadFromUnix] return: the bytes of a datagram
    ([buf[0:n]]), or an error, given by its text. A [Listen] loop is run on
    the results its socket is going to return; when they are used up the
    socket counts as closed. *)
Inductive ReadResult :=
| Datagram (packet : string)
| ReadFailed (text : string).

(** How a [Listen] loop is left: it returns, or the process exits. *)
Inductive Leave := Returned | Exited (code : Z).

Section Listener.

Variable EscapeMetricName : string → string.
Variable ParseFloat : string → float * option NumError.
Context {H : Type} `{!EventHandler H}.

(** [linesReceived.Inc()] and then
    [l.EventHandler.Queue(LineToEvents(line, ...), &eventsFlushed)]. *)
Definition handleLine (ln : string) (st : H * Telemetry) : H * Telemetry :=
  let t := st.2 in
  let '(events, m) := LineToEvents EscapeMetricName ParseFloat ln (parser t) in
  let '(h, flushed) := Queue events (eventsFlushed t) st.1 in
  (h, {| udpPackets := udpPackets t;
         unixgramPackets := unixgramPackets t;
         linesReceived := S (linesReceived t);
         eventsFlushed := flushed;
         tcpConnections := tcpConnections t;
         tcpErrors := tcpErrors t;
         tcpLineTooLong := tcpLineTooLong t;
         parser := m |}).

Definition incUdpPackets (t : Telemetry) : Telemetry :=
  {| udpPackets := S (udpPackets t);
     unixgramPackets := unixgramPackets t;
     linesReceived := linesReceived t;
     eventsFlushed := eventsFlushed t;
     tcpConnections := tcpConnections t;
     tcpErrors := tcpErrors t;
     tcpLineTooLong := tcpLineTooLong t;
     parser := parser t |}.

Definition incUnixgramPackets (t : Telemetry) : Telemetry :=
  {| udpPackets := udpPackets t;
     unixgramPackets := S (unixgramPackets t);
     linesReceived := linesReceived t;
     eventsFlushed := eventsFlushed t;
     tcpConnections := tcpConnections t;
     tcpErrors := tcpErrors t;
     tcpLineTooLong := tcpLineTooLong t;
     parser := parser t |}.

Definition incTcpConnections (t : Telemetry) : Telemetry :=
  {| udpPackets := udpPackets t;
     unixgramPackets := unixgramPackets t;
     linesReceived := linesReceived t;
     eventsFlushed := eventsFlushed t;
     tcpConnections := S (tcpConnections t);
     tcpErrors := tcpErrors t;
     tcpLineTooLong := tcpLineTooLong t;
     parser := parser t |}.

Definition incTcpErrors (t : Telemetry) : Telemetry :=
  {| udpPackets := udpPackets t;
     unixgramPackets := unixgramPackets t;
     linesReceived := linesReceived t;
     eventsFlushed := eventsFlushed t;
     tcpConnections := tcpConnections t;
     tcpErrors := S (tcpErrors t);
     tcpLineTooLong := tcpLineTooLong t;
     parser := parser t |}.

Definition incTcpLineTooLong (t : Telemetry) : Telemetry :=
  {| udpPackets := udpPackets t;
     unixgramPackets := unixgramPackets t;
     linesReceived := linesReceived t;
     eventsFlushed := eventsFlushed t;
     tcpConnections := tcpConnections t;
     tcpErrors := tcpErrors t;
     tcpLineTooLong := S (tcpLineTooLong t);
     parser := parser t |}.

(** [StatsDUDPListener.HandlePacket] *)
Definition UDP_HandlePacket (packet : string) (st : H * Telemetry)
    : H * Telemetry :=
  let lines := strings.Split packet "010" in
  fold_left (λ st ln, handleLine ln st) lines (st.1, incUdpPackets st.2).

(** [StatsDUnixgramListener.HandlePacket] *)
Definition Unixgram_HandlePacket (packet : string) (st : H * Telemetry)
    : H * Telemetry :=
  let lines := strings.Split packet "010" in
  fold_left (λ st ln, handleLine ln st) lines (st.1, incUnixgramPackets st.2).

(** The [for] loop of [HandleConn] over the results of [r.ReadLine()]:
    what is left unread when the loop is left, and the state then. *)
Fixpoint readLoop (rs : list ReadLineResult) (st : H * Telemetry)
    : list ReadLineResult * (H * Telemetry) :=
  match rs with
  | [] => ([], st)
  | Failed EOF :: rest => (rest, st)
  | Failed (OtherError _) :: rest => (rest, (st.1, incTcpErrors st.2))
  | Line _ true :: rest => (rest, (st.1, incTcpLineTooLong st.2))
  | Line ln false :: rest => readLoop rest (handleLine ln st)
  end.

(** [StatsDTCPListener.HandleConn]; the deferred [c.Close()] runs when
    the loop is left. *)
Definition HandleConn (c : Conn) (st : H * Telemetry)
    : Conn * (H * Telemetry) :=
  let '(rest, st') := readLoop (reads c) (st.1, incTcpConnections st.2) in
  ({| reads := rest; closed := true |}, st').

(** [StatsDUDPListener.Listen]: every datagram read is handled; the
    first error ends the loop, whatever it says (an error other than
    "use of closed network connection" is logged before). What is left
    unread, and the state then. *)
Fixpoint UDP_Listen (rs : list ReadResult) (st : H * Telemetry)
    : list ReadResult * (H * Telemetry) :=
  match rs with
  | [] => ([], st)
  | ReadFailed _ :: rest => (rest, st)
  | Datagram packet :: rest => UDP_Listen rest (UDP_HandlePacket packet st)
  end.

(** [StatsDUnixgramListener.Listen]: as above, but an error other than
    "use of closed network connection" ends the process, [os.Exit(1)]. *)
Fixpoint Unixgram_Listen (rs : list ReadResult) (st : H * Telemetry)
    : Leave * list ReadResult * (H * Telemetry) :=
  match rs with
  | [] => (Returned, [], st)
  | ReadFailed text :: rest =>
      if strings.HasSuffix text "use of closed network connection"
      then (Returned, rest, st)
      else (Exited 1, rest, st)
  | Datagram packet :: rest =>
      Unixgram_Listen rest (Unixgram_HandlePacket packet st)
  end.

End Listener.

End listener.

(** ** package util *)

Module util.

(** [net.IPAddr], and [net.UDPAddr] and [net.TCPAddr], which have the same
    fields. *)
Record IPAddr := { IP : string; Zone : string }.
Record PortAddr := { AddrIP : string; Port : Z; AddrZone : string }.

(** The errors [IPPortFromString] makes with [fmt.Errorf]:
    ["bad StatsD listening address: %s"] of the address,
    ["Unable to resolve %s: %s"] of the host and the resolver's error, and
    ["Bad port %s: %s"] of the port and the error of [Atoi], which is [nil]
    when the port is a number outside of 0..65535. *)
Inductive Error :=
| BadAddress (addr : string)
| Unresolvable (host err : string)
| BadPort (portStr : string) (err : option NumError).

Section Net.

(** [net.SplitHostPort], [net.ResolveIPAddr] and [strconv.Atoi] belong to
    Go's library; the functions are taken over any three such. *)
Variable SplitHostPort : string → (string * string) + string.
Variable ResolveIPAddr : string → string → IPAddr + string.
Variable Atoi : string → Z * option NumError.

Definition IPPortFromString (addr : string) : (IPAddr * Z) + Error :=
  match SplitHostPort addr with
  | inr _ => inr (BadAddress addr)
  | inl (host, portStr) =>
      let host := if String.eqb host "" then "0.0.0.0" else host in
      match ResolveIPAddr "ip" host with
      | inr err => inr (Unresolvable host err)
      | inl ip =>
          let '(port, err) := Atoi portStr in
          if match err with Some _ => true | None => false end
             || (port <? 0) || (65535 <? port)
          then inr (BadPort portStr err)
          else inl (ip, port)
      end
  end.

Definition UDPAddrFromString (addr : string) : PortAddr + Error :=
  match IPPortFromString addr with
  | inr err => inr err
  | inl (ip, port) => inl {| AddrIP := IP ip; Port := port; AddrZone := Zone ip |}
  end.

Definition TCPAddrFromString (addr : string) : PortAddr + Error :=
  match IPPortFromString addr with
  | inr err => inr err
  | inl (ip, port) => inl {| AddrIP := IP ip; Port := port; AddrZone := Zone ip |}
  end.

End Net.

End util.

(** ** Vocabulary of the statements *)

Import line.

(** Fresh counters. *)
Definition noMetrics : Metrics :=
  {| sampleErrors := ∅; samplesReceived := 0; tagErrors := 0; tagsReceived := 0 |}.

Definition noTelemetry : listener.Telemetry :=
  {| listener.udpPackets := 0; listener.unixgramPackets := 0;
     listener.linesReceived := 0; listener.eventsFlushed := 0;
     listener.tcpConnections := 0; listener.tcpErrors := 0;
     listener.tcpLineTooLong := 0; listener.parser := noMetrics |}.

(** The handler of the listener test: every [Queue] call sends its slice on
    a channel, which is the list of the slices sent so far. *)
Instance Unbuffered : EventHandler (list Events) :=
  λ events flushed sent, (sent ++ [events], flushed).

(** The line passes the checks at the head of [LineToEvents] (it has a
    colon after a name that is not empty, it is valid UTF-8, it does not mix
    tagging styles): [metric] is its name, [labels0] the labels of the name,
    [m1] the counters when the loop over the samples starts, and [samples]
    the samples that loop ranges over. *)
Definition lineSamples (EscapeMetricName : string → string)
    (line : string) (m : Metrics) (metric : string)
    (labels0 : gmap string string) (m1 : Metrics) (samples : list string) : Prop :=
  ∃ name rest tagErrors',
    strings.SplitN2 line ":" = [name; rest] ∧
    name ≠ "" ∧
    utf8.ValidString line = true ∧
    parseNameAndTags EscapeMetricName name ∅ (tagErrors m)
      = (metric, (labels0, tagErrors')) ∧
    m1 = setTagErrors tagErrors' m ∧
    ((strings.Contains rest "|#" = true ∧ labels0 = ∅ ∧ samples = [rest]) ∨
     (strings.Contains rest "|#" = false ∧ samples = strings.Split rest ":")).

(** The components after the type of a sample that carries the sample rate
    [rate], alone or next to DogStatsD tags. *)
Inductive rateModifiers (rate : string) : list string → Prop :=
| rate_alone : rateModifiers rate [String "@" rate]
| rate_then_tags tags : rateModifiers rate [String "@" rate; String "#" tags]
| tags_then_rate tags : rateModifiers rate [String "#" tags; String "@" rate].

(** The type codes of timers. *)
Definition timerType (statType : string) : Prop :=
  statType = "ms" ∨ statType = "h" ∨ statType = "d".

(** The first [k] batches of [N] events of a buffer. *)
Fixpoint chunks {A} (N k : nat) (l : list A) : list (list A) :=
  match k with
  | O => []
  | S k' => take N l :: chunks N k' (drop N l)
  end.

(** What the reader returns for the complete lines [lns], one result per
    line. *)
Definition complete (lns : list string) : list listener.ReadLineResult :=
  map (λ ln, listener.Line ln false) lns.

(** The queue that has been handed the events [all] since it was made. *)
Definition queued (N : nat) (all : Events) : queue.EventQueue :=
  {| queue.C := chunks N (length all / N) all;
     queue.q := drop (length all / N * N) all;
     queue.flushThreshold := N;
     queue.eventsFlushed := (length all / N)%nat |}.

(** [relative] of [LineToEvents]: the value starts with a sign. *)
Definition relativeValue (valueStr : string) : bool :=
  (strings.Index valueStr "+" =? 0) || (strings.Index valueStr "-" =? 0).

(** The sample after the loop over its modifiers [mods], for the value [v]
    and the labels and counters [st] the sample starts from. *)
Definition afterModifiers (EscapeMetricName : string → string)
    (ParseFloat : string → float * option NumError)
    (statType : string) (mods : list string)
    (v : float) (st : gmap string string * Metrics) : Sample :=
  fold_left (λ s c, modifier EscapeMetricName ParseFloat statType c s) mods
    {| value := v; multiplyEvents := 1; labels := st.1;
       metrics := incSamplesReceived st.2 |}.

(** The component starts with [#]. *)
Definition hashed (component : string) : bool :=
  match component with
  | String c0 _ => Ascii.eqb c0 "#"
  | EmptyString => false
  end.

(** The sample rate [parsed] as it is applied: zero stands for one. *)
Definition samplingFactor (parsed : float) : float :=
  if (parsed =? 0)%float then 1%float else parsed.

(** The test of [LineToEvents] for the type codes of timers. *)
Definition isTimer (statType : string) : bool :=
  String.eqb statType "ms" || String.eqb statType "h" || String.eqb statType "d".

(** The counters [m] and [d] added up, counter by counter. *)
Definition addMetrics (m d : Metrics) : Metrics :=
  {| sampleErrors := union_with (λ a b, Some (a + b)%nat)
                       (sampleErrors m) (sampleErrors d);
     samplesReceived := samplesReceived m + samplesReceived d;
     tagErrors := tagErrors m + tagErrors d;
     tagsReceived := tagsReceived m + tagsReceived d |}.

(** The sample [s] with the counters [m] added to its own. *)
Definition shiftSample (m : Metrics) (s : Sample) : Sample :=
  {| value := value s; multiplyEvents := multiplyEvents s;
     labels := labels s; metrics := addMetrics m (metrics s) |}.

(** A tag that [parseTag] stores: a key and a value, neither of them
    empty, around its first separator. *)
Definition tagParses (separator : ascii) (tag : string) : bool :=
  match strings.cut tag separator with
  | Some (k, v) => negb (String.eqb k "") && negb (String.eqb v "")
  | None => false
  end.

(** A type code [buildEvent] knows. *)
Definition knownType (statType : string) : bool :=
  String.eqb statType "c" || String.eqb statType "g" || isTimer statType.

(** The event [buildEvent] makes for a known type. *)
Definition eventOf (statType metric : string) (v : float) (relative : bool)
    (lbls : gmap string string) : Event :=
  if String.eqb statType "c" then CounterEvent metric v lbls
  else if String.eqb statType "g" then GaugeEvent metric v relative lbls
  else TimerEvent metric v lbls.

(** The counters after a sample that had no error: the sample is counted,
    and so are its tags when it has any. *)
Definition countSample (lbls : gmap string string) (m : Metrics) : Metrics :=
  if (0 <? size lbls)%nat then incTagsReceived (incSamplesReceived m)
  else incSamplesReceived m.

(** The type code of a sample, [components[1]]; the empty string for a
    sample that has no such component. *)
Definition typeOf (smpl : string) : string :=
  nth 1 (strings.Split smpl "|") "".

(** An address [host:port] with one colon and no bracket, the only ones the
    examples below use; on these [net.SplitHostPort] cuts at the colon. *)
Definition SplitHostPort_plain (hostport : string) : (string * string) + string :=
  match strings.cut hostport ":" with
  | Some (host, port) =>
      if (strings.Count port ":" =? 0)%nat then inl (host, port)
      else inr "too many colons in address"
  | None => inr "missing port in address"
  end.

(** A resolver without a network: it knows the address 0.0.0.0 only. *)
Definition ResolveIPAddr_any (network host : string) : util.IPAddr + string :=
  if String.eqb host "0.0.0.0"
  then inl {| util.IP := String "000" (String "000" (String "000" (String "000" "")));
              util.Zone := "" |}
  else inr "no such host".

(** The counters of the transport, which the handling of a line leaves
    alone. *)
Definition sameTransport (t t' : listener.Telemetry) : Prop :=
  listener.udpPackets t' = listener.udpPackets t ∧
  listener.unixgramPackets t' = listener.unixgramPackets t ∧
  listener.tcpConnections t' = listener.tcpConnections t ∧
  listener.tcpErrors t' = listener.tcpErrors t ∧
  listener.tcpLineTooLong t' = listener.tcpLineTooLong t.

(** * Properties *)

(** ** Binary64 arithmetic

    Facts about the quotients [1 / r] and [v / 1] the parser computes, from
    the specification of the primitive floats ([SpecFloat]): the digits of
    a mantissa, the right shifts and the rounding of [binary_round_aux],
    and then the division itself. *)

Lemma digits2_size p : digits2_pos p = Pos.size p.
Proof. induction p; simpl; congruence. Qed.

Lemma digits2_bounds p :
  2 ^ (Z.pos (digits2_pos p) - 1) <= Z.pos p < 2 ^ Z.pos (digits2_pos p).
Proof.
  rewrite digits2_size.
  pose proof (Pos.size_gt p) as Hgt. pose proof (Pos.size_le p) as Hle.
  apply Pos2Z.pos_lt_pos in Hgt. apply Pos2Z.pos_le_pos in Hle.
  rewrite Pos2Z.inj_pow in Hgt, Hle.
  replace (Z.pos (Pos.size p)) with (Z.succ (Z.pos (Pos.size p) - 1)) in Hle by lia.
  rewrite Z.pow_succ_r in Hle by lia.
  change (Z.pos p~0) with (2 * Z.pos p) in Hle.
  change (Z.pos 2) with 2 in *. lia.
Qed.

Lemma Zdigits2_le m k : 0 <= k -> 0 <= m < 2 ^ k -> Zdigits2 m <= k.
Proof.
  intros Hk [Hm Hlt]. destruct m as [|p|p]; simpl; try lia.
  destruct (digits2_bounds p) as [Hlo _].
  destruct (Z_le_gt_dec (Z.pos (digits2_pos p)) k) as [|Hgt]; [done|].
  assert (2 ^ k <= 2 ^ (Z.pos (digits2_pos p) - 1)) by (apply Z.pow_le_mono_r; lia).
  lia.
Qed.

Lemma shr_1_m mrs : 0 <= shr_m mrs -> shr_m (shr_1 mrs) = shr_m mrs / 2.
Proof.
  destruct mrs as [m r s]; simpl. intros Hm.
  destruct m as [|[p|p|]|p]; simpl; try lia; try reflexivity.
  - rewrite Pos2Z.inj_xI. apply (Z.div_unique _ _ _ 1); lia.
  - rewrite Pos2Z.inj_xO. apply (Z.div_unique _ _ _ 0); lia.
Qed.

Lemma iter_shr_1_m p : forall mrs, 0 <= shr_m mrs ->
  shr_m (SpecFloat.iter_pos shr_1 p mrs) = shr_m mrs / 2 ^ Z.pos p.
Proof.
  induction p as [p IH|p IH|]; intros mrs Hm; simpl SpecFloat.iter_pos.
  - assert (H1 : 0 <= shr_m (shr_1 mrs)) by (rewrite shr_1_m by done; apply Z.div_pos; lia).
    assert (H2 : 0 <= shr_m (SpecFloat.iter_pos shr_1 p (shr_1 mrs)))
      by (rewrite IH by done; apply Z.div_pos; [done|apply Z.pow_pos_nonneg; lia]).
    rewrite IH, IH, shr_1_m by done.
    rewrite !Z.div_div by (try apply Z.pow_pos_nonneg; lia).
    f_equal. rewrite Pos2Z.inj_xI, <- Z.pow_add_r, <- (Z.pow_1_r 2) at 1 by lia.
    rewrite <- Z.pow_add_r by lia. f_equal. lia.
  - assert (H2 : 0 <= shr_m (SpecFloat.iter_pos shr_1 p mrs))
      by (rewrite IH by done; apply Z.div_pos; [done|apply Z.pow_pos_nonneg; lia]).
    rewrite IH, IH by done.
    rewrite !Z.div_div by (try apply Z.pow_pos_nonneg; lia).
    f_equal. rewrite Pos2Z.inj_xO, <- Z.pow_add_r by lia. f_equal. lia.
  - rewrite shr_1_m by done. reflexivity.
Qed.

Lemma shr_fexp_m prec emax m e l :
  0 <= m ->
  let n := Z.max 0 (fexp prec emax (Zdigits2 m + e) - e) in
  shr_m (fst (shr_fexp prec emax m e l)) = m / 2 ^ n /\
  snd (shr_fexp prec emax m e l) = e + n.
Proof.
  intros Hm n. unfold shr_fexp, shr. fold (fexp prec emax (Zdigits2 m + e)).
  subst n. set (d := fexp prec emax (Zdigits2 m + e) - e).
  assert (Hrec : shr_m (shr_record_of_loc m l) = m)
    by (destruct l as [|[]]; reflexivity).
  destruct d as [|p|p]; simpl fst; simpl snd.
  - rewrite Hrec. change (Z.max 0 0) with 0. rewrite Z.div_1_r. lia.
  - rewrite iter_shr_1_m by lia. rewrite Hrec.
    replace (Z.max 0 (Z.pos p)) with (Z.pos p) by lia. split; reflexivity.
  - rewrite Hrec. replace (Z.max 0 (Z.neg p)) with 0 by lia.
    rewrite Z.div_1_r. lia.
Qed.

Lemma round_nearest_even_bounds m l :
  m <= round_nearest_even m l <= m + 1.
Proof.
  unfold round_nearest_even. destruct l as [|[]]; try lia.
  destruct (Z.even m); lia.
Qed.

Lemma binary_round_aux_sign sx mx ex lx :
  match binary_round_aux prec emax sx mx ex lx with
  | S754_zero s | S754_infinity s | S754_finite s _ _ => s = sx
  | S754_nan => True
  end.
Proof.
  unfold binary_round_aux.
  destruct (shr_fexp prec emax mx ex lx) as [mrs1 e1].
  destruct (shr_fexp prec emax _ e1 loc_Exact) as [mrs2 e2].
  destruct (shr_m mrs2); [done| |done].
  destruct (e2 <=? emax - prec); done.
Qed.

Lemma binary_round_aux_small sx q e' l :
  0 <= q ->
  q + 2 ^ Z.max 0 (fexp prec emax (Zdigits2 q + e') - e') < 2 ^ (- e') ->
  match binary_round_aux prec emax sx q e' l with
  | S754_zero _ => True
  | S754_finite _ m e => Z.shiftl (Z.pos m) e = 0
  | _ => False
  end.
Proof.
  intros Hq Hsmall. unfold binary_round_aux.
  destruct (shr_fexp_m prec emax q e' l Hq) as [Hm1 He1].
  destruct (shr_fexp prec emax q e' l) as [mrs1 e1]. simpl in Hm1, He1.
  set (n1 := Z.max 0 (fexp prec emax (Zdigits2 q + e') - e')) in *.
  assert (Hn1 : 0 <= n1) by lia.
  assert (Hp1 : 0 < 2 ^ n1) by (apply Z.pow_pos_nonneg; lia).
  set (m2 := round_nearest_even (shr_m mrs1) (loc_of_shr_record mrs1)).
  pose proof (round_nearest_even_bounds (shr_m mrs1) (loc_of_shr_record mrs1)) as Hm2.
  fold m2 in Hm2. rewrite Hm1 in Hm2.
  assert (Hdiv1 : 0 <= q / 2 ^ n1) by (apply Z.div_pos; lia).
  assert (Hmul1 : 2 ^ n1 * (q / 2 ^ n1) <= q) by (apply Z.mul_div_le; lia).
  assert (Hm2' : 0 <= m2) by lia.
  destruct (shr_fexp_m prec emax m2 e1 loc_Exact Hm2') as [Hm3 He2].
  destruct (shr_fexp prec emax m2 e1 loc_Exact) as [mrs2 e2]. simpl in Hm3, He2.
  set (n2 := Z.max 0 (fexp prec emax (Zdigits2 m2 + e1) - e1)) in *.
  assert (Hn2 : 0 <= n2) by lia.
  assert (Hp2 : 0 < 2 ^ n2) by (apply Z.pow_pos_nonneg; lia).
  assert (Hmul2 : 2 ^ n2 * (m2 / 2 ^ n2) <= m2) by (apply Z.mul_div_le; lia).
  assert (Hdiv2 : 0 <= m2 / 2 ^ n2) by (apply Z.div_pos; lia).
  destruct (shr_m mrs2) as [|m|m] eqn:Hshr; [done| |lia].
  assert (Hbound : Z.pos m * 2 ^ (n1 + n2) < 2 ^ (- e')).
  { rewrite Z.pow_add_r by lia. rewrite Hm3. nia. }
  assert (He2neg : e2 < 0).
  { destruct (Z_lt_ge_dec e2 0) as [|Hge]; [done|].
    assert (2 ^ (- e') <= 2 ^ (n1 + n2)) by (apply Z.pow_le_mono_r; lia).
    assert (0 < 2 ^ (n1 + n2)) by (apply Z.pow_pos_nonneg; lia). nia. }
  assert (Hle : (e2 <=? emax - prec) = true) by (apply Z.leb_le; unfold emax, prec; lia).
  rewrite Hle.
  rewrite Z.shiftl_div_pow2 by lia. apply Z.div_small.
  split; [lia|].
  assert (Hsplit : 2 ^ (- e') = 2 ^ (- e2) * 2 ^ (n1 + n2)).
  { rewrite <- Z.pow_add_r by lia. f_equal. lia. }
  assert (0 < 2 ^ (n1 + n2)) by (apply Z.pow_pos_nonneg; lia).
  nia.
Qed.

Lemma Prim2SF_one : Prim2SF 1 = S754_finite false 4503599627370496 (-52).
Proof. reflexivity. Qed.

Lemma Prim2SF_zero : Prim2SF 0 = S754_zero false.
Proof. reflexivity. Qed.

(** A float above one is normal: 53 digits, exponent at least -52. *)
Lemma above_one_normal my ey :
  valid_binary (S754_finite false my ey) = true ->
  SFltb (S754_finite false 4503599627370496 (-52)) (S754_finite false my ey) = true ->
  digits2_pos my = 53%positive /\ ey <= 971 /\
  (-52 < ey \/ (ey = -52 /\ 4503599627370496 < Z.pos my)).
Proof.
  unfold valid_binary, bounded, canonical_mantissa, SFltb, SFcompare.
  intros Hvalid Hlt. apply andb_true_iff in Hvalid as [Hcanon Hmax].
  apply Z.eqb_eq in Hcanon. apply Z.leb_le in Hmax.
  unfold fexp, SpecFloat.emin, emax, prec in *.
  assert (Hcmp : -52 < ey \/ (ey = -52 /\ 4503599627370496 < Z.pos my)).
  { destruct (Z.compare_spec (-52) ey) as [Heq|Hl|Hg]; [|lia|discriminate].
    right. split; [lia|].
    destruct (Pos.compare_cont Eq 4503599627370496 my) eqn:Hc; try discriminate.
    change (4503599627370496 ?= my)%positive with
      (Pos.compare_cont Eq 4503599627370496 my) in *.
    apply (proj1 (Pos.compare_lt_iff _ _)) in Hc. lia. }
  split; [|split; [lia|done]]. lia.
Qed.

Lemma div_above_one_small my ey :
  digits2_pos my = 53%positive -> ey <= 971 ->
  (-52 < ey \/ (ey = -52 /\ 4503599627370496 < Z.pos my)) ->
  match SFdiv prec emax (S754_finite false 4503599627370496 (-52))
                        (S754_finite false my ey) with
  | S754_zero _ => True
  | S754_finite _ m e => Z.shiftl (Z.pos m) e = 0
  | _ => False
  end.
Proof.
  intros Hd Hmax Hcmp.
  pose proof (digits2_bounds my) as Hmy. rewrite Hd in Hmy.
  change (2 ^ (53 - 1)) with 4503599627370496 in Hmy.
  change (2 ^ 53) with 9007199254740992 in Hmy.
  unfold SFdiv, SFdiv_core_binary.
  change (Zdigits2 4503599627370496) with 53.
  change (Zdigits2 (Z.pos my)) with (Z.pos (digits2_pos my)). rewrite Hd.
  set (e' := Z.min (fexp prec emax (53 + -52 - (53 + ey))) (-52 - ey)).
  assert (He' : e' = Z.max (-105 - ey) (-1074)).
  { unfold e', fexp, SpecFloat.emin, emax, prec. lia. }
  set (s := -52 - ey - e').
  assert (Hs : (ey <= 969 /\ s = 53 /\ e' = -105 - ey) \/
               (ey = 970 /\ s = 52 /\ e' = -1074) \/
               (ey = 971 /\ s = 51 /\ e' = -1074)) by lia.
  clearbody s e'.
  assert (Hround : forall q rem, 0 <= q -> 
     q + 2 ^ Z.max 0 (fexp prec emax (Zdigits2 q + e') - e') < 2 ^ (- e') ->
     match binary_round_aux prec emax (xorb false false) q e' (new_location (Z.pos my) rem) with
     | S754_zero _ => True
     | S754_finite _ m e => Z.shiftl (Z.pos m) e = 0
     | _ => False
     end).
  { intros q rem Hq Hb. by apply binary_round_aux_small. }
  destruct Hs as [(Hey & -> & ->)|[(-> & -> & ->)|(-> & -> & ->)]].
  - change (Z.shiftl 4503599627370496 53) with (2 ^ 105).
    pose proof (Z.div_eucl_eq (2 ^ 105) (Z.pos my) ltac:(lia)) as Heq.
    pose proof (Z.mod_pos_bound (2 ^ 105) (Z.pos my) ltac:(lia)) as Hrem.
    unfold Z.modulo in Hrem.
    destruct (Z.div_eucl (2 ^ 105) (Z.pos my)) as [q rem].
    assert (Hq0 : 0 <= q) by nia.
    apply Hround; [done|].
    destruct Hcmp as [Hgt|[-> Hgt]].
    + assert (Hq : q <= 2 ^ 53) by nia.
      assert (Hdig : Zdigits2 q <= 54) by (apply Zdigits2_le; lia).
      assert (Hn : Z.max 0 (fexp prec emax (Zdigits2 q + (-105 - ey)) - (-105 - ey)) <= 1).
      { unfold fexp, SpecFloat.emin, emax, prec. lia. }
      assert (Hp : 2 ^ Z.max 0 (fexp prec emax (Zdigits2 q + (-105 - ey)) - (-105 - ey)) <= 2 ^ 1)
        by (apply Z.pow_le_mono_r; lia).
      assert (Hbig : 2 ^ 54 <= 2 ^ (- (-105 - ey))) by (apply Z.pow_le_mono_r; lia).
      lia.
    + assert (Hq : q <= 2 ^ 53 - 2) by nia.
      assert (Hdig : Zdigits2 q <= 53) by (apply Zdigits2_le; lia).
      assert (Hn : Z.max 0 (fexp prec emax (Zdigits2 q + (-105 - -52)) - (-105 - -52)) = 0).
      { unfold fexp, SpecFloat.emin, emax, prec. lia. }
      rewrite Hn. change (2 ^ (- (-105 - -52))) with (2 ^ 53). lia.
  - change (Z.shiftl 4503599627370496 52) with (2 ^ 104).
    pose proof (Z.div_eucl_eq (2 ^ 104) (Z.pos my) ltac:(lia)) as Heq.
    pose proof (Z.mod_pos_bound (2 ^ 104) (Z.pos my) ltac:(lia)) as Hrem.
    unfold Z.modulo in Hrem.
    destruct (Z.div_eucl (2 ^ 104) (Z.pos my)) as [q rem].
    assert (Hq0 : 0 <= q) by nia.
    apply Hround; [done|].
    assert (Hq : q <= 2 ^ 52) by nia.
    assert (Hdig : Zdigits2 q <= 53) by (apply Zdigits2_le; lia).
    assert (Hn : Z.max 0 (fexp prec emax (Zdigits2 q + -1074) - -1074) = 0).
    { unfold fexp, SpecFloat.emin, emax, prec. lia. }
    rewrite Hn.
    assert (Hbig : 2 ^ 54 <= 2 ^ (- -1074)) by (apply Z.pow_le_mono_r; lia).
    lia.
  - change (Z.shiftl 4503599627370496 51) with (2 ^ 103).
    pose proof (Z.div_eucl_eq (2 ^ 103) (Z.pos my) ltac:(lia)) as Heq.
    pose proof (Z.mod_pos_bound (2 ^ 103) (Z.pos my) ltac:(lia)) as Hrem.
    unfold Z.modulo in Hrem.
    destruct (Z.div_eucl (2 ^ 103) (Z.pos my)) as [q rem].
    assert (Hq0 : 0 <= q) by nia.
    apply Hround; [done|].
    assert (Hq : q <= 2 ^ 51) by nia.
    assert (Hdig : Zdigits2 q <= 52) by (apply Zdigits2_le; lia).
    assert (Hn : Z.max 0 (fexp prec emax (Zdigits2 q + -1074) - -1074) = 0).
    { unfold fexp, SpecFloat.emin, emax, prec. lia. }
    rewrite Hn.
    assert (Hbig : 2 ^ 54 <= 2 ^ (- -1074)) by (apply Z.pow_le_mono_r; lia).
    lia.
Qed.

Lemma div_eucl_exact a b : 0 < b -> Z.div_eucl (a * b) b = (a, 0).
Proof.
  intros Hb.
  pose proof (Z.div_eucl_eq (a * b) b ltac:(lia)) as Heq.
  pose proof (Z.mod_pos_bound (a * b) b Hb) as Hrem.
  unfold Z.modulo in Hrem.
  destruct (Z.div_eucl (a * b) b) as [q r].
  assert (q = a) by nia. subst q. f_equal. lia.
Qed.

(** Division by one is exact. *)
Lemma SFdiv_one x :
  valid_binary x = true ->
  SFdiv prec emax x (S754_finite false 4503599627370496 (-52)) = x.
Proof.
  destruct x as [s|s| |s m e]; [by destruct s|by destruct s|done|].
  unfold valid_binary, bounded, canonical_mantissa.
  intros Hvalid. apply andb_true_iff in Hvalid as [Hcanon Hmax].
  apply Z.eqb_eq in Hcanon. apply Z.leb_le in Hmax.
  unfold SFdiv, SFdiv_core_binary.
  change (Zdigits2 4503599627370496) with 53.
  change (Zdigits2 (Z.pos m)) with (Z.pos (digits2_pos m)).
  set (d := Z.pos (digits2_pos m)) in *.
  assert (Hcases : (d = 53 /\ -1074 < e) \/ (e = -1074 /\ d <= 53)).
  { unfold fexp, SpecFloat.emin, emax, prec in Hcanon. lia. }
  rewrite xorb_false_r.
  destruct Hcases as [[Hd He]|[He Hd]].
  - replace (Z.min (fexp prec emax (d + e - (53 + -52))) (e - -52)) with (e - 1)
      by (unfold fexp, SpecFloat.emin, emax, prec; lia).
    replace (e - -52 - (e - 1)) with 53 by lia.
    rewrite Z.shiftl_mul_pow2 by lia.
    replace (Z.pos m * 2 ^ 53) with ((2 * Z.pos m) * 4503599627370496) by lia.
    rewrite div_eucl_exact by lia.
    change (new_location 4503599627370496 0) with loc_Exact.
    unfold binary_round_aux, shr_fexp.
    change (2 * Z.pos m) with (Z.pos m~0).
    change (Zdigits2 (Z.pos m~0)) with (Z.pos (Pos.succ (digits2_pos m))).
    rewrite Pos2Z.inj_succ. fold d.
    replace (fexp prec emax (Z.succ d + (e - 1)) - (e - 1)) with 1
      by (unfold fexp, SpecFloat.emin, emax, prec; lia).
    cbn [shr shr_record_of_loc SpecFloat.iter_pos shr_1 orb shr_m loc_of_shr_record
         round_nearest_even].
    change (Zdigits2 (Z.pos m)) with d.
    replace (fexp prec emax (d + (e - 1 + 1)) - (e - 1 + 1)) with 0
      by (unfold fexp, SpecFloat.emin, emax, prec; lia).
    cbn [shr shr_record_of_loc shr_m].
    replace (e - 1 + 1) with e by lia.
    assert (Hle : (e <=? emax - prec) = true) by (apply Z.leb_le; lia).
    by rewrite Hle.
  - subst e.
    replace (Z.min (fexp prec emax (d + -1074 - (53 + -52))) (-1074 - -52)) with (-1074)
      by (unfold fexp, SpecFloat.emin, emax, prec; lia).
    change (-1074 - -52 - -1074) with 52.
    rewrite Z.shiftl_mul_pow2 by lia.
    change (2 ^ 52) with 4503599627370496.
    rewrite div_eucl_exact by lia.
    change (new_location 4503599627370496 0) with loc_Exact.
    unfold binary_round_aux, shr_fexp.
    change (Zdigits2 (Z.pos m)) with d.
    replace (fexp prec emax (d + -1074) - -1074) with 0
      by (unfold fexp, SpecFloat.emin, emax, prec; lia).
    cbn [shr shr_record_of_loc shr_m loc_of_shr_record round_nearest_even].
    change (Zdigits2 (Z.pos m)) with d.
    replace (fexp prec emax (d + -1074) - -1074) with 0
      by (unfold fexp, SpecFloat.emin, emax, prec; lia).
    cbn [shr shr_record_of_loc shr_m]. reflexivity.
Qed.

Lemma float_div_one (x : float) : (x / 1)%float = x.
Proof.
  apply Prim2SF_inj. rewrite FloatAxioms.div_spec, Prim2SF_one.
  apply SFdiv_one, Prim2SF_valid.
Qed.

Lemma float_above_zero_nonzero (r : float) :
  (0 <? r)%float = true → (r =? 0)%float = false.
Proof.
  rewrite FloatAxioms.ltb_spec, FloatAxioms.eqb_spec, Prim2SF_zero.
  unfold SFltb, SFeqb, SFcompare.
  destruct (Prim2SF r) as [s|s| |s m e]; try destruct s; done.
Qed.

Lemma float_below_zero_nonzero (r : float) :
  (r <? 0)%float = true → (r =? 0)%float = false.
Proof.
  rewrite FloatAxioms.ltb_spec, FloatAxioms.eqb_spec, Prim2SF_zero.
  unfold SFltb, SFeqb, SFcompare.
  destruct (Prim2SF r) as [s|s| |s m e]; try destruct s; done.
Qed.

Lemma float_above_one_nonzero (r : float) :
  (1 <? r)%float = true → (r =? 0)%float = false.
Proof.
  rewrite FloatAxioms.ltb_spec, FloatAxioms.eqb_spec, Prim2SF_zero, Prim2SF_one.
  unfold SFltb, SFeqb, SFcompare.
  destruct (Prim2SF r) as [s|s| |s m e]; try destruct s; done.
Qed.

(** The quotient of one by a positive float is not negative. *)
Lemma trunc_inverse_of_positive (r : float) (n : Z) :
  (0 <? r)%float = true → trunc_float (1 / r) = Some n → 0 ≤ n.
Proof.
  unfold trunc_float. rewrite FloatAxioms.ltb_spec, FloatAxioms.div_spec, Prim2SF_zero, Prim2SF_one.
  unfold SFltb, SFcompare, SF64div, SFdiv.
  destruct (Prim2SF r) as [s|s| |s m e]; try destruct s; try done.
  - intros _ [= <-]. done.
  - intros _.
    destruct (SFdiv_core_binary prec emax 4503599627370496 (-52) (Z.pos m) e)
      as [[mz ez] lz].
    pose proof (binary_round_aux_sign (xorb false false) mz ez lz) as Hsign.
    destruct (binary_round_aux prec emax (xorb false false) mz ez lz)
      as [s|s| |s mq eq]; try done.
    + intros [= <-]. done.
    + simpl in Hsign. subst s. intros [= <-]. apply Z.shiftl_nonneg. lia.
Qed.

(** [int(1 / r)] is zero for a float [r] above one... *)
Lemma int_of_inverse_above_one (r : float) :
  (1 <? r)%float = true → int_of_float64 (1 / r) = 0.
Proof.
  intros Hlt. unfold int_of_float64, trunc_float.
  pose proof (Prim2SF_valid r) as Hvalid.
  rewrite FloatAxioms.ltb_spec, Prim2SF_one in Hlt. rewrite FloatAxioms.div_spec, Prim2SF_one.
  destruct (Prim2SF r) as [s|s| |s m e] eqn:Hr; try destruct s; try done.
  - destruct (above_one_normal m e Hvalid Hlt) as (Hd & Hmax & Hcmp).
    pose proof (div_above_one_small m e Hd Hmax Hcmp) as Hsmall.
    unfold SF64div.
    destruct (SFdiv prec emax _ (S754_finite false m e)) as [s|s| |s mq eq];
      try done.
    rewrite Hsmall. by destruct s.
Qed.

(** ... and zero or less for a float below zero. *)
Lemma int_of_inverse_below_zero (r : float) :
  (r <? 0)%float = true → int_of_float64 (1 / r) ≤ 0.
Proof.
  intros Hlt. unfold int_of_float64, trunc_float.
  rewrite FloatAxioms.ltb_spec, Prim2SF_zero in Hlt. rewrite FloatAxioms.div_spec, Prim2SF_one.
  assert (Hmin : minInt ≤ 0) by done.
  unfold SFltb, SFcompare in Hlt. unfold SF64div, SFdiv.
  destruct (Prim2SF r) as [s|s| |s m e] eqn:Hr; try destruct s; try done.
  destruct (SFdiv_core_binary prec emax 4503599627370496 (-52) (Z.pos m) e)
    as [[mz ez] lz].
  pose proof (binary_round_aux_sign (xorb false true) mz ez lz) as Hsign.
  destruct (binary_round_aux prec emax (xorb false true) mz ez lz)
    as [s|s| |s mq eq]; try done.
  simpl in Hsign. subst s.
  pose proof (Z.shiftl_nonneg (Z.pos mq) eq) as Hnn.
  destruct (_ && _); lia.
Qed.

(** ** Counters *)

Lemma count_incSampleErrors reason m :
  count reason (sampleErrors (incSampleErrors reason m))
  = S (count reason (sampleErrors m)).
Proof. unfold count, incSampleErrors; simpl. by rewrite lookup_insert_eq. Qed.

Lemma count_incSampleErrors_ne reason reason' m :
  reason ≠ reason' →
  count reason' (sampleErrors (incSampleErrors reason m))
  = count reason' (sampleErrors m).
Proof.
  intros Hne. unfold count, incSampleErrors; simpl.
  by rewrite lookup_insert_ne.
Qed.

(** ** The [strings] functions *)

Lemma Split_length s sep : length (strings.Split s sep) = S (strings.Count s sep).
Proof.
  induction s as [|c s IH]; simpl; [done|].
  destruct (Ascii.eqb c sep); simpl; [by rewrite IH|].
  destruct (strings.Split s sep) as [|p ps]; simpl in *; lia.
Qed.

Lemma Split_nonempty s sep : strings.Split s sep ≠ [].
Proof.
  intros Heq. pose proof (Split_length s sep) as Hl.
  rewrite Heq in Hl. discriminate.
Qed.

Lemma Split_head_hashed s sep :
  sep ≠ "#"%char →
  hashed (hd "" (strings.Split s sep)) = hashed s.
Proof.
  intros Hsep. destruct s as [|a s]; [done|]. simpl.
  destruct (Ascii.eqb_spec a sep) as [->|Hne]; simpl.
  - symmetry. by apply Ascii.eqb_neq.
  - by destruct (strings.Split s sep).
Qed.

Lemma prefix_pipe_hash s : String.prefix "|#" (String "|" s) = hashed s.
Proof.
  cbn [String.prefix]. destruct (ascii_dec "|" "|") as [_|Hne]; [|done].
  destruct s as [|b s]; [done|]. cbn [String.prefix hashed].
  destruct (ascii_dec "#" b) as [<-|Hne]; [by destruct s|].
  symmetry. apply Ascii.eqb_neq. congruence.
Qed.

Lemma Contains_cons c s substr :
  strings.Contains (String c s) substr
  = String.prefix substr (String c s) || strings.Contains s substr.
Proof. reflexivity. Qed.

(** Without [|#] in a sample no component after the first starts with
    [#]. *)
Lemma Split_pipe_not_hashed s c0 cs :
  strings.Contains s "|#" = false →
  strings.Split s "|" = c0 :: cs →
  Forall (λ c, hashed c = false) cs.
Proof.
  revert c0 cs. induction s as [|a s IH]; intros c0 cs Hdog Hsplit.
  - injection Hsplit as _ <-. constructor.
  - rewrite Contains_cons in Hdog. apply orb_false_iff in Hdog as [Hpre Hdog].
    cbn [strings.Split] in Hsplit.
    destruct (Ascii.eqb_spec a "|") as [->|Hne].
    + injection Hsplit as _ <-.
      rewrite prefix_pipe_hash in Hpre.
      pose proof (Split_head_hashed s "|" ltac:(done)) as Hhead.
      destruct (strings.Split s "|") as [|c1 cs'] eqn:Hs;
        [by apply Split_nonempty in Hs|].
      constructor; [simpl in Hhead; congruence|].
      by apply (IH c1).
    + destruct (strings.Split s "|") as [|c1 cs'] eqn:Hs;
        [by apply Split_nonempty in Hs|].
      injection Hsplit as _ <-. by apply (IH c1).
Qed.

(** Without [|#] after the colon none of the samples holds it. *)
Lemma Split_colon_not_dogstatsd rest :
  strings.Contains rest "|#" = false →
  Forall (λ s, strings.Contains s "|#" = false) (strings.Split rest ":").
Proof.
  induction rest as [|a rest IH]; intros Hdog.
  - by repeat constructor.
  - rewrite Contains_cons in Hdog. apply orb_false_iff in Hdog as [Hpre Hdog].
    specialize (IH Hdog). cbn [strings.Split].
    destruct (Ascii.eqb_spec a ":") as [->|Hne]; [by constructor|].
    pose proof (Split_head_hashed rest ":" ltac:(done)) as Hhead.
    destruct (strings.Split rest ":") as [|p ps] eqn:Hs;
      [by apply Split_nonempty in Hs|].
    apply Forall_cons in IH as [Hp Hps]. constructor; [|done].
    rewrite Contains_cons, Hp, orb_false_r.
    destruct (Ascii.eqb_spec a "|") as [->|Hne'].
    + rewrite prefix_pipe_hash. rewrite prefix_pipe_hash in Hpre.
      simpl in Hhead. congruence.
    + cbn [String.prefix]. by destruct (ascii_dec "|" a) as [<-|_].
Qed.

Section ParserFacts.

Variable EscapeMetricName : string → string.
Variable ParseFloat : string → float * option NumError.

Abbreviation LineToEvents := (LineToEvents EscapeMetricName ParseFloat).
Abbreviation sample := (sample EscapeMetricName ParseFloat).
Abbreviation samplesLoop := (samplesLoop EscapeMetricName ParseFloat).
Abbreviation modifier := (modifier EscapeMetricName ParseFloat).
Abbreviation afterMods := (afterModifiers EscapeMetricName ParseFloat).

Lemma LineToEvents_empty m : LineToEvents "" m = ([], m).
Proof. reflexivity. Qed.

(** C1. A line that is not valid UTF-8 gives no event, and the only
    counter it moves is [sample_errors{reason="malformed_line"}], by
    one, whatever else the line holds. *)
Theorem LineToEvents_invalid_utf8 (line : string) (m : Metrics) :
  utf8.ValidString line = false →
  LineToEvents line m = ([], incSampleErrors "malformed_line" m) ∧
  count "malformed_line" (sampleErrors (LineToEvents line m).2)
    = S (count "malformed_line" (sampleErrors m)) ∧
  (∀ reason, reason ≠ "malformed_line" →
     count reason (sampleErrors (LineToEvents line m).2)
     = count reason (sampleErrors m)).
Proof.
  intros Hinvalid.
  assert (Hres : LineToEvents line m = ([], incSampleErrors "malformed_line" m)).
  { unfold line.LineToEvents.
    destruct line as [|c line']; [discriminate Hinvalid|].
    change (String.eqb (String c line') "") with false. cbv iota.
    destruct (strings.SplitN2 (String c line') ":") as [|a [|b [|? ?]]];
      try reflexivity.
    rewrite Hinvalid. simpl negb. by rewrite orb_true_r. }
  rewrite Hres. split; [done|]. split.
  - apply count_incSampleErrors.
  - intros reason Hne. by apply count_incSampleErrors_ne.
Qed.

(** *** From the line to its samples *)

Lemma LineToEvents_samples line m metric labels0 m1 samples :
  lineSamples EscapeMetricName line m metric labels0 m1 samples →
  LineToEvents line m
  = ((samplesLoop metric samples (labels0, m1)).1,
     (samplesLoop metric samples (labels0, m1)).2.2).
Proof.
  intros (name & rest & te & Hsplit & Hname & Hvalid & Hparse & -> & Hmode).
  unfold line.LineToEvents.
  destruct line as [|c line']; [discriminate Hsplit|].
  change (String.eqb (String c line') "") with false. cbv iota.
  rewrite Hsplit, Hvalid.
  destruct name as [|c0 name']; [done|].
  change ((String.length (String c0 name') =? 0)%nat || negb true) with false.
  cbv iota. rewrite Hparse.
  destruct Hmode as [(-> & -> & ->)|(-> & ->)].
  - rewrite map_size_empty. change (0 <? 0)%nat with false. cbv iota.
    by destruct (samplesLoop metric [rest] _) as [es st].
  - by destruct (samplesLoop metric (strings.Split rest ":") _) as [es st].
Qed.

Lemma samplesLoop_app metric pre post st :
  samplesLoop metric (pre ++ post) st
  = ((samplesLoop metric pre st).1
       ++ (samplesLoop metric post (samplesLoop metric pre st).2).1,
     (samplesLoop metric post (samplesLoop metric pre st).2).2).
Proof.
  revert st. induction pre as [|s pre IH]; intros st; simpl.
  - by destruct (samplesLoop metric post st).
  - destruct (sample metric s st) as [es st1]. rewrite IH.
    destruct (samplesLoop metric pre st1) as [es1 st2]. simpl.
    destruct (samplesLoop metric post st2) as [es2 st3]. simpl.
    by rewrite app_assoc.
Qed.

(** The events of a line are those of the samples before [smpl], those of
    [smpl] and those of the samples after it, in this order. *)
Lemma LineToEvents_sample_at line m metric labels0 m1 pre smpl post :
  lineSamples EscapeMetricName line m metric labels0 m1 (pre ++ smpl :: post) →
  let st1 := (samplesLoop metric pre (labels0, m1)).2 in
  (LineToEvents line m).1
  = (samplesLoop metric pre (labels0, m1)).1
      ++ (sample metric smpl st1).1
      ++ (samplesLoop metric post (sample metric smpl st1).2).1.
Proof.
  intros Hline st1. rewrite (LineToEvents_samples _ _ _ _ _ _ Hline).
  rewrite samplesLoop_app. simpl. fold st1.
  destruct (sample metric smpl st1) as [es st2]. simpl.
  by destruct (samplesLoop metric post st2).
Qed.

(** *** One sample *)

Lemma emit_built n statType metric v relative lbls m e :
  buildEvent statType metric v relative lbls = inl e →
  emit n statType metric v relative lbls m = (replicate n e, m).
Proof.
  intros Hbuild. induction n as [|n IH]; simpl; [done|].
  by rewrite Hbuild, IH.
Qed.

Lemma emit_counter n metric v relative lbls m :
  emit n "c" metric v relative lbls m
  = (replicate n (CounterEvent metric v lbls), m).
Proof. by apply emit_built. Qed.

Lemma emit_gauge n metric v relative lbls m :
  emit n "g" metric v relative lbls m
  = (replicate n (GaugeEvent metric v relative lbls), m).
Proof. by apply emit_built. Qed.

(** A sample of two to four components, none of the later ones empty,
    whose value parses: the modifiers are applied and the events built. *)
Lemma sample_run metric smpl st valueStr statType mods v :
  strings.Split smpl "|" = valueStr :: statType :: mods →
  (length mods ≤ 2)%nat →
  Forall (λ c, c ≠ "") mods →
  ParseFloat valueStr = (v, None) →
  let s := afterMods statType mods v st in
  let m' := if (0 <? size (labels s))%nat
            then incTagsReceived (metrics s) else metrics s in
  sample metric smpl st
  = ((emit (Z.to_nat (multiplyEvents s)) statType metric (value s)
           (relativeValue valueStr) (labels s) m').1,
     (labels s,
      (emit (Z.to_nat (multiplyEvents s)) statType metric (value s)
            (relativeValue valueStr) (labels s) m').2)).
Proof.
  intros Hsplit Hlen Hmods Hv s m'. unfold line.sample.
  rewrite Hsplit, Hv.
  assert (Hlen' : ((length (valueStr :: statType :: mods) <? 2)%nat
                   || (4 <? length (valueStr :: statType :: mods))%nat) = false).
  { simpl length. apply orb_false_iff. split; [done|]. apply Nat.ltb_ge. lia. }
  rewrite Hlen'. cbv iota.
  assert (Hne : existsb (λ c, (String.length c =? 0)%nat) mods = false).
  { clear -Hmods. induction Hmods as [|c mods Hc _ IH]; [done|].
    simpl. rewrite IH. by destruct c. }
  rewrite Hne. cbv iota.
  fold (afterMods statType mods v st). fold s. fold m'.
  fold (relativeValue valueStr).
  by destruct (emit _ _ _ _ _ _ _).
Qed.

Lemma timerType_isTimer statType :
  timerType statType →
  isTimer statType = true ∧ String.eqb statType "g" = false
  ∧ String.eqb statType "c" = false.
Proof. by intros [->|[->| ->]]. Qed.

Lemma timerType_buildEvent statType metric v relative lbls :
  timerType statType →
  buildEvent statType metric v relative lbls = inl (TimerEvent metric v lbls).
Proof. by intros [->|[->| ->]]. Qed.

(** What a sample rate, alone or next to tags, leaves in the sample. *)
Lemma afterModifiers_rate statType rate mods v st parsed err :
  rateModifiers rate mods →
  ParseFloat rate = (parsed, err) →
  let s := afterMods statType mods v st in
  value s = (if String.eqb statType "g" then v
             else if String.eqb statType "c" then (v / samplingFactor parsed)%float
             else v) ∧
  multiplyEvents s = (if String.eqb statType "g" then 1
                      else if String.eqb statType "c" then 1
                      else if isTimer statType
                           then int_of_float64 (1 / samplingFactor parsed)%float
                           else 1) ∧
  sampleErrors (metrics s)
    = sampleErrors (match err with
                    | Some _ => incSampleErrors "invalid_sample_factor" st.2
                    | None => st.2
                    end) ∧
  samplesReceived (metrics s) = S (samplesReceived st.2) ∧
  tagsReceived (metrics s) = tagsReceived st.2.
Proof.
  intros Hmods Hrate. unfold afterModifiers, isTimer.
  destruct Hmods as [|tags|tags]; cbn [fold_left]; unfold line.modifier;
    change (Ascii.eqb "@" "@") with true;
    change (Ascii.eqb "#" "@") with false;
    change (Ascii.eqb "#" "#") with true; cbv iota; rewrite Hrate;
    fold (samplingFactor parsed).
  - destruct (String.eqb statType "g"), (String.eqb statType "c"),
      (String.eqb statType "ms" || String.eqb statType "h" || String.eqb statType "d");
      destruct err; done.
  - destruct (String.eqb statType "g"), (String.eqb statType "c"),
      (String.eqb statType "ms" || String.eqb statType "h" || String.eqb statType "d");
      cbn [labels metrics tagErrors];
      destruct (ParseDogStatsDTags _ _ _ _) as [lbls te];
      destruct err; done.
  - cbn [labels metrics tagErrors value multiplyEvents].
    destruct (ParseDogStatsDTags _ _ _ _) as [lbls te].
    destruct (String.eqb statType "g"), (String.eqb statType "c"),
      (String.eqb statType "ms" || String.eqb statType "h" || String.eqb statType "d");
      destruct err; done.
Qed.

Lemma rateModifiers_wellformed rate mods :
  rateModifiers rate mods → (length mods ≤ 2)%nat ∧ Forall (λ c, c ≠ "") mods.
Proof. intros [|tags|tags]; simpl; split; try lia; repeat constructor; done. Qed.

Lemma afterModifiers_rate_alone statType rate v st :
  tagErrors (metrics (afterMods statType [String "@" rate] v st))
  = tagErrors st.2.
Proof.
  unfold afterModifiers. cbn [fold_left]. unfold line.modifier.
  change (Ascii.eqb "@" "@") with true. cbv iota.
  destruct (ParseFloat rate) as [parsed err].
  destruct (String.eqb statType "g"), (String.eqb statType "c"),
    (String.eqb statType "ms" || String.eqb statType "h" || String.eqb statType "d");
    destruct err; done.
Qed.

Lemma modifier_gauge c s :
  value (modifier "g" c s) = value s ∧
  multiplyEvents (modifier "g" c s) = multiplyEvents s.
Proof.
  unfold line.modifier. destruct c as [|c0 payload]; [done|].
  destruct (Ascii.eqb c0 "@").
  - destruct (ParseFloat payload) as [parsed err]. done.
  - destruct (Ascii.eqb c0 "#"); [|done].
    by destruct (ParseDogStatsDTags _ _ _ _).
Qed.

Lemma modifiers_gauge mods s :
  value (fold_left (λ s c, modifier "g" c s) mods s) = value s ∧
  multiplyEvents (fold_left (λ s c, modifier "g" c s) mods s) = multiplyEvents s.
Proof.
  revert s. induction mods as [|c mods IH]; intros s; cbn [fold_left]; [done|].
  destruct (IH (modifier "g" c s)) as [-> ->]. apply modifier_gauge.
Qed.

Lemma afterModifiers_gauge mods v st :
  value (afterMods "g" mods v st) = v ∧
  multiplyEvents (afterMods "g" mods v st) = 1.
Proof.
  unfold afterModifiers.
  by destruct (modifiers_gauge mods
                 {| value := v; multiplyEvents := 1; labels := st.1;
                    metrics := incSamplesReceived st.2 |}) as [-> ->].
Qed.

(** *** The claims about the sample rate *)



(** C9. A timer sample whose rate [r] is above one or below zero appends
    no event, since the count [int(1 / r)] is zero or negative. The
    sample is counted in [samplesReceived], [sample_errors] stays as it
    was, and so does [tag_errors] when the rate stands alone. *)
Theorem timer_sample_rate_outside (line : string) (m : Metrics) (metric : string)
    (labels0 : gmap string string) (m1 : Metrics) (pre post : list string)
    (smpl valueStr statType rate : string) (mods : list string) (v r : float) :
  lineSamples EscapeMetricName line m metric labels0 m1 (pre ++ smpl :: post) →
  strings.Split smpl "|" = valueStr :: statType :: mods →
  timerType statType →
  rateModifiers rate mods →
  ParseFloat valueStr = (v, None) →
  ParseFloat rate = (r, None) →
  (1 <? r)%float = true ∨ (r <? 0)%float = true →
  let st1 := (samplesLoop metric pre (labels0, m1)).2 in
  let out := sample metric smpl st1 in
  int_of_float64 (1 / r) ≤ 0 ∧
  out.1 = [] ∧
  samplesReceived out.2.2 = S (samplesReceived st1.2) ∧
  sampleErrors out.2.2 = sampleErrors st1.2 ∧
  (mods = [String "@" rate] → tagErrors out.2.2 = tagErrors st1.2) ∧
  (LineToEvents line m).1
  = (samplesLoop metric pre (labels0, m1)).1 ++ (samplesLoop metric post out.2).1.
Proof.
  intros Hline Hsplit Htimer Hmods Hv Hr Hrange st1 out.
  destruct (rateModifiers_wellformed _ _ Hmods) as [Hlen Hne].
  destruct (timerType_isTimer _ Htimer) as (Ht & Hg & Hc).
  assert (Hnz : (r =? 0)%float = false).
  { destruct Hrange; [by apply float_above_one_nonzero
                     |by apply float_below_zero_nonzero]. }
  assert (Hint : int_of_float64 (1 / r) ≤ 0).
  { destruct Hrange as [Habove|Hbelow].
    - by rewrite int_of_inverse_above_one.
    - by apply int_of_inverse_below_zero. }
  pose proof (sample_run metric smpl st1 _ _ _ _ Hsplit Hlen Hne Hv) as Hrun.
  fold out in Hrun. cbv zeta in Hrun.
  destruct (afterModifiers_rate statType rate mods v st1 r None Hmods Hr)
    as (Hval & Hmul & Herr & Hrecv & Htags).
  rewrite Hg, Hc, Ht in Hmul. unfold samplingFactor in Hmul. rewrite Hnz in Hmul.
  rewrite Hmul in Hrun.
  replace (Z.to_nat (int_of_float64 (1 / r))) with 0%nat in Hrun by lia.
  cbn [emit fst snd] in Hrun.
  assert (Hout : out.1 = []) by (by rewrite Hrun).
  split; [done|]. split; [done|].
  split; [|split; [|split]].
  - rewrite Hrun. cbn [fst snd]. by destruct (0 <? size _)%nat.
  - rewrite Hrun. cbn [fst snd]. by destruct (0 <? size _)%nat.
  - intros ->. rewrite Hrun. cbn [fst snd].
    pose proof (afterModifiers_rate_alone statType rate v st1) as Hte.
    by destruct (0 <? size _)%nat.
  - rewrite (LineToEvents_sample_at _ _ _ _ _ _ _ _ Hline). fold st1. fold out.
    by rewrite Hout.
Qed.

(** C6. A gauge sample appends one [GaugeEvent] that carries the parsed
    value, whatever stands after the type: no rate, a rate of any value,
    a rate that does not parse, tags. *)
Theorem gauge_sample_ignores_rate (line : string) (m : Metrics) (metric : string)
    (labels0 : gmap string string) (m1 : Metrics) (pre post : list string)
    (smpl valueStr : string) (mods : list string) (v : float) :
  lineSamples EscapeMetricName line m metric labels0 m1 (pre ++ smpl :: post) →
  strings.Split smpl "|" = valueStr :: "g" :: mods →
  (length mods ≤ 2)%nat →
  Forall (λ c, c ≠ "") mods →
  ParseFloat valueStr = (v, None) →
  let st1 := (samplesLoop metric pre (labels0, m1)).2 in
  let out := sample metric smpl st1 in
  out.1 = [GaugeEvent metric v (relativeValue valueStr) out.2.1] ∧
  (LineToEvents line m).1
  = (samplesLoop metric pre (labels0, m1)).1
      ++ [GaugeEvent metric v (relativeValue valueStr) out.2.1]
      ++ (samplesLoop metric post out.2).1.
Proof.
  intros Hline Hsplit Hlen Hne Hv st1 out.
  assert (Hout : out.1 = [GaugeEvent metric v (relativeValue valueStr) out.2.1]).
  { unfold out. rewrite (sample_run _ _ _ _ _ _ _ Hsplit Hlen Hne Hv).
    cbn [fst snd].
    destruct (afterModifiers_gauge mods v st1) as [-> ->].
    by rewrite emit_gauge. }
  split; [done|].
  rewrite (LineToEvents_sample_at _ _ _ _ _ _ _ _ Hline). fold st1. fold out.
  by rewrite Hout.
Qed.

(** *** Tags in the name *)

Lemma parseTag_keeps tag sep (lbls : gmap string string) te :
  lbls ≠ ∅ → (parseTag EscapeMetricName tag sep lbls te).1 ≠ ∅.
Proof.
  intros Hne. unfold parseTag.
  destruct (String.length tag =? 0)%nat; [done|].
  destruct (strings.cut tag sep) as [[k v]|]; [|done].
  destruct (_ || _); [done|]. simpl. apply insert_non_empty.
Qed.

Lemma parseTag_parsed tag sep (lbls : gmap string string) te k v :
  strings.cut tag sep = Some (k, v) → k ≠ "" → v ≠ "" →
  (parseTag EscapeMetricName tag sep lbls te).1 ≠ ∅.
Proof.
  intros Hcut Hk Hv. unfold parseTag.
  destruct tag as [|c tag']; [discriminate Hcut|].
  change (String.length (String c tag') =? 0)%nat with false. cbv iota.
  rewrite Hcut. destruct k; [done|]. destruct v; [done|].
  simpl. apply insert_non_empty.
Qed.

Lemma parseNameTags_parsed tags (lbls : gmap string string) te tag k v :
  tag ∈ tagFields tags →
  strings.cut tag "=" = Some (k, v) → k ≠ "" → v ≠ "" →
  (parseNameTags EscapeMetricName tags lbls te).1 ≠ ∅.
Proof.
  intros Hin Hcut Hk Hv. unfold parseNameTags.
  assert (Hfold : ∀ fields (st : gmap string string * nat),
    st.1 ≠ ∅ ∨ tag ∈ fields →
    (fold_left (λ st tag, parseTag EscapeMetricName tag "=" st.1 st.2) fields st).1 ≠ ∅).
  { induction fields as [|f fields IH]; intros st Hst; cbn [fold_left].
    - destruct Hst as [Hst|Hst]; [done|]. by apply elem_of_nil in Hst.
    - apply IH. destruct Hst as [Hst|Hst].
      + left. by apply parseTag_keeps.
      + apply elem_of_cons in Hst as [<-|Hst]; [|by right].
        left. by apply (parseTag_parsed _ _ _ _ k v). }
  apply Hfold. by right.
Qed.

(** C5. A line that passes the checks of a malformed line, whose part
    after the colon contains [|#] and whose name carries a tag [k=v] with
    neither [k] nor [v] empty, gives no event and moves
    [sample_errors{reason="mixed_tagging_styles"}] by one; no sample of the
    line is looked at. *)
Theorem mixed_tagging_styles (line : string) (m : Metrics)
    (name rest metric tags tag k v : string) :
  strings.SplitN2 line ":" = [name; rest] →
  utf8.ValidString line = true →
  strings.cut_at (λ c, Ascii.eqb c "#" || Ascii.eqb c ",") name
    = Some (metric, tags) →
  tag ∈ tagFields tags →
  strings.cut tag "=" = Some (k, v) →
  k ≠ "" → v ≠ "" →
  strings.Contains rest "|#" = true →
  (LineToEvents line m).1 = [] ∧
  count "mixed_tagging_styles" (sampleErrors (LineToEvents line m).2)
    = S (count "mixed_tagging_styles" (sampleErrors m)) ∧
  (∀ reason, reason ≠ "mixed_tagging_styles" →
     count reason (sampleErrors (LineToEvents line m).2)
     = count reason (sampleErrors m)) ∧
  samplesReceived (LineToEvents line m).2 = samplesReceived m.
Proof.
  intros Hsplit Hvalid Hname Hin Hcut Hk Hv Hdog.
  pose proof (parseNameTags_parsed tags ∅ (tagErrors m) tag k v Hin Hcut Hk Hv)
    as Hlabels.
  unfold line.LineToEvents.
  destruct line as [|c line']; [discriminate Hsplit|].
  change (String.eqb (String c line') "") with false. cbv iota.
  rewrite Hsplit, Hvalid.
  destruct name as [|c0 name']; [discriminate Hname|].
  change ((String.length (String c0 name') =? 0)%nat || negb true) with false.
  cbv iota. unfold parseNameAndTags. rewrite Hname, Hdog.
  destruct (parseNameTags EscapeMetricName tags ∅ (tagErrors m)) as [lbls te].
  simpl in Hlabels.
  assert (Hsize : (0 <? size lbls)%nat = true).
  { apply Nat.ltb_lt. apply map_size_non_empty_iff in Hlabels. lia. }
  rewrite Hsize. cbn [fst snd].
  split; [done|]. split; [|split; [|done]].
  - rewrite count_incSampleErrors. done.
  - intros reason Hne. by rewrite count_incSampleErrors_ne.
Qed.

(** *** The labels map is shared

    The events of a line hold a reference to the one [labels] map of the
    line. The map is written before the events of a DogStatsD sample are
    built, and a line without [|#] never writes it in the loop: every event
    of a line carries the labels as they are when [LineToEvents] returns,
    which is why an event can record them when it is built. *)

Lemma emit_labels n statType metric v relative lbls m :
  Forall (λ e, Labels e = lbls) (emit n statType metric v relative lbls m).1.
Proof.
  revert m. induction n as [|n IH]; intros m; simpl; [constructor|].
  destruct (buildEvent statType metric v relative lbls) as [e|err] eqn:Hbuild.
  - specialize (IH m). destruct (emit n _ _ _ _ _ m) as [es m']. simpl in *.
    constructor; [|done].
    unfold buildEvent in Hbuild.
    destruct (String.eqb statType "c"); [by injection Hbuild as <-|].
    destruct (String.eqb statType "g"); [by injection Hbuild as <-|].
    destruct (_ || _); [by injection Hbuild as <-|].
    by destruct (String.eqb statType "s").
  - apply IH.
Qed.

Lemma sample_events_labels metric smpl st :
  Forall (λ e, Labels e = (sample metric smpl st).2.1) (sample metric smpl st).1.
Proof.
  unfold line.sample.
  destruct (_ || _); [constructor|].
  destruct (strings.Split smpl "|") as [|valueStr [|statType rest]];
    [constructor..|].
  destruct (ParseFloat valueStr) as [v [err|]]; [constructor|].
  destruct (existsb _ rest); [constructor|].
  match goal with
  | |- context [emit ?n ?t ?mt ?v ?r ?l ?m] =>
      pose proof (emit_labels n t mt v r l m) as Hemit;
      destruct (emit n t mt v r l m) as [es m'']
  end.
  done.
Qed.

Lemma modifier_not_hashed statType c s :
  hashed c = false → labels (modifier statType c s) = labels s.
Proof.
  unfold line.modifier. destruct c as [|c0 payload]; [done|]. simpl.
  intros ->. destruct (Ascii.eqb c0 "@"); [|done].
  destruct (ParseFloat payload) as [parsed err].
  by destruct (String.eqb statType "g"), (String.eqb statType "c"),
    (String.eqb statType "ms" || String.eqb statType "h" || String.eqb statType "d").
Qed.

Lemma modifiers_not_hashed statType mods s :
  Forall (λ c, hashed c = false) mods →
  labels (fold_left (λ s c, modifier statType c s) mods s) = labels s.
Proof.
  intros Hmods. revert s.
  induction Hmods as [|c mods Hc _ IH]; intros s; cbn [fold_left]; [done|].
  rewrite IH. by apply modifier_not_hashed.
Qed.

Lemma sample_labels_kept metric smpl st :
  strings.Contains smpl "|#" = false → (sample metric smpl st).2.1 = st.1.
Proof.
  intros Hdog. unfold line.sample.
  destruct (_ || _); [done|].
  destruct (strings.Split smpl "|") as [|valueStr [|statType rest]] eqn:Hsplit;
    [done..|].
  destruct (ParseFloat valueStr) as [v [err|]]; [done|].
  destruct (existsb _ rest); [done|].
  pose proof (Split_pipe_not_hashed _ _ _ Hdog Hsplit) as Hrest.
  apply Forall_cons in Hrest as [_ Hrest].
  match goal with
  | |- context [emit ?n ?t ?mt ?v ?r ?l ?m] => destruct (emit n t mt v r l m)
  end.
  cbn [fst snd]. by rewrite modifiers_not_hashed.
Qed.

Lemma samplesLoop_labels_kept metric samples st :
  Forall (λ s, strings.Contains s "|#" = false) samples →
  (samplesLoop metric samples st).2.1 = st.1 ∧
  Forall (λ e, Labels e = st.1) (samplesLoop metric samples st).1.
Proof.
  intros Hsamples. revert st.
  induction Hsamples as [|s samples Hs _ IH]; intros st; simpl.
  - split; [done|constructor].
  - pose proof (sample_events_labels metric s st) as Hes.
    pose proof (sample_labels_kept metric s st Hs) as Hkept.
    destruct (sample metric s st) as [es st1]. simpl in Hes, Hkept.
    destruct (IH st1) as [Hfinal Hes'].
    destruct (samplesLoop metric samples st1) as [es' st2]. simpl in *.
    split; [congruence|]. apply Forall_app. split.
    + by rewrite <- Hkept.
    + by rewrite <- Hkept.
Qed.

(** X15. All the events of a line carry the same labels, those the line
    ends with: the labels of the name in the colon form, whose samples add
    none, and those of the name and of the one sample in the DogStatsD
    form. *)
Theorem events_share_the_labels line m metric labels0 m1 samples :
  lineSamples EscapeMetricName line m metric labels0 m1 samples →
  Forall (λ e, Labels e = (samplesLoop metric samples (labels0, m1)).2.1)
         (LineToEvents line m).1.
Proof.
  intros Hline. rewrite (LineToEvents_samples _ _ _ _ _ _ Hline). cbn [fst].
  destruct Hline as (name & rest & te & _ & _ & _ & _ & _ & Hmode).
  destruct Hmode as [(_ & _ & ->)|(Hdog & ->)].
  - simpl. pose proof (sample_events_labels metric rest (labels0, m1)) as Hes.
    destruct (sample metric rest (labels0, m1)) as [es st1].
    simpl in *. by rewrite app_nil_r.
  - destruct (samplesLoop_labels_kept metric (strings.Split rest ":") (labels0, m1)
                (Split_colon_not_dogstatsd rest Hdog)) as [-> Hes].
    done.
Qed.

(** *** A rate that is zero or not a number

    [strconv.ParseFloat] returns zero along with a syntax error, and a rate
    of zero is applied as one: the counter keeps its value and the timer is
    emitted once. *)


End ParserFacts.

(** ** The listeners *)

Section ListenerFacts.

Variable EscapeMetricName : string → string.
Variable ParseFloat : string → float * option NumError.
Context {H : Type} `{!EventHandler H}.

Abbreviation handleLine := (listener.handleLine EscapeMetricName ParseFloat).
Abbreviation readLoop := (listener.readLoop EscapeMetricName ParseFloat).
Abbreviation HandleConn := (listener.HandleConn EscapeMetricName ParseFloat).
Abbreviation UDP_HandlePacket := (listener.UDP_HandlePacket EscapeMetricName ParseFloat).
Abbreviation Unixgram_HandlePacket :=
  (listener.Unixgram_HandlePacket EscapeMetricName ParseFloat).

Lemma handleLine_counters ln (st : H * listener.Telemetry) :
  sameTransport st.2 (handleLine ln st).2 ∧
  listener.linesReceived (handleLine ln st).2 = S (listener.linesReceived st.2).
Proof.
  unfold listener.handleLine.
  destruct (line.LineToEvents _ _ ln _) as [events m].
  destruct (Queue events _ st.1) as [h flushed]. simpl.
  by repeat split.
Qed.

Lemma handleLines_counters lns (st : H * listener.Telemetry) :
  sameTransport st.2 (fold_left (λ st ln, handleLine ln st) lns st).2 ∧
  listener.linesReceived (fold_left (λ st ln, handleLine ln st) lns st).2
  = (listener.linesReceived st.2 + length lns)%nat.
Proof.
  revert st. induction lns as [|ln lns IH]; intros st; simpl.
  - split; [by repeat split | lia].
  - destruct (IH (handleLine ln st)) as [Hsame Hlines].
    destruct (handleLine_counters ln st) as [Hsame1 Hlines1].
    split.
    + unfold sameTransport in *. intuition congruence.
    + rewrite Hlines, Hlines1. lia.
Qed.

Lemma readLoop_complete lns rs (st : H * listener.Telemetry) :
  readLoop (complete lns ++ rs) st
  = readLoop rs (fold_left (λ st ln, handleLine ln st) lns st).
Proof.
  revert st. induction lns as [|ln lns IH]; intros st; simpl; [done|].
  apply IH.
Qed.

(** C10. A datagram increments [linesReceived] once per field of
    [strings.Split(packet, "\n")], which is the number of newline bytes
    plus one: once for the empty packet, and once more for the empty field
    after a final newline. An empty line gives no event and moves no
    counter of the parser. Both datagram listeners do so. *)
Theorem HandlePacket_linesReceived (packet : string) (st : H * listener.Telemetry) :
  listener.linesReceived (UDP_HandlePacket packet st).2
    = (listener.linesReceived st.2 + (strings.Count packet "010" + 1))%nat ∧
  listener.linesReceived (Unixgram_HandlePacket packet st).2
    = (listener.linesReceived st.2 + (strings.Count packet "010" + 1))%nat ∧
  listener.linesReceived (UDP_HandlePacket "" st).2
    = S (listener.linesReceived st.2) ∧
  (∀ m, line.LineToEvents EscapeMetricName ParseFloat "" m = ([], m)).
Proof.
  assert (Hudp : ∀ p, listener.linesReceived (UDP_HandlePacket p st).2
    = (listener.linesReceived st.2 + (strings.Count p "010" + 1))%nat).
  { intros p. unfold listener.UDP_HandlePacket.
    destruct (handleLines_counters (strings.Split p "010")
                (st.1, listener.incUdpPackets st.2)) as [_ ->].
    rewrite Split_length. simpl. lia. }
  split; [apply Hudp|]. split.
  - unfold listener.Unixgram_HandlePacket.
    destruct (handleLines_counters (strings.Split packet "010")
                (st.1, listener.incUnixgramPackets st.2)) as [_ ->].
    rewrite Split_length. simpl. lia.
  - split; [|done]. rewrite Hudp. simpl. lia.
Qed.

(** C8. In [HandleConn], a line longer than the reader's buffer
    ([isPrefix]) increments [tcp_line_too_long] once and ends the loop:
    the connection is closed, what the reader still holds stays unread, and
    the handler and the counters are those after the complete lines that
    came before. A read error other than [io.EOF] does the same with
    [tcp_errors]. *)
Theorem HandleConn_stops (lns : list string) (ln msg : string)
    (rest : list listener.ReadLineResult) (st : H * listener.Telemetry) :
  let st1 := fold_left (λ st ln, handleLine ln st) lns
               (st.1, listener.incTcpConnections st.2) in
  let tooLong := HandleConn
    {| listener.reads := complete lns ++ listener.Line ln true :: rest;
       listener.closed := false |} st in
  let failed := HandleConn
    {| listener.reads := complete lns ++ listener.Failed (listener.OtherError msg) :: rest;
       listener.closed := false |} st in
  tooLong = ({| listener.reads := rest; listener.closed := true |},
             (st1.1, listener.incTcpLineTooLong st1.2)) ∧
  listener.tcpLineTooLong tooLong.2.2 = S (listener.tcpLineTooLong st.2) ∧
  listener.tcpErrors tooLong.2.2 = listener.tcpErrors st.2 ∧
  listener.linesReceived tooLong.2.2
    = (listener.linesReceived st.2 + length lns)%nat ∧
  failed = ({| listener.reads := rest; listener.closed := true |},
            (st1.1, listener.incTcpErrors st1.2)) ∧
  listener.tcpErrors failed.2.2 = S (listener.tcpErrors st.2) ∧
  listener.tcpLineTooLong failed.2.2 = listener.tcpLineTooLong st.2 ∧
  listener.linesReceived failed.2.2
    = (listener.linesReceived st.2 + length lns)%nat.
Proof.
  intros st1 tooLong failed.
  destruct (handleLines_counters lns (st.1, listener.incTcpConnections st.2))
    as [(_ & _ & _ & Herr & Hlong) Hlines].
  fold st1 in Herr, Hlong, Hlines. simpl in Herr, Hlong, Hlines.
  assert (HtooLong : tooLong = ({| listener.reads := rest; listener.closed := true |},
             (st1.1, listener.incTcpLineTooLong st1.2))).
  { unfold tooLong, listener.HandleConn. simpl listener.reads.
    by rewrite readLoop_complete. }
  assert (Hfailed : failed = ({| listener.reads := rest; listener.closed := true |},
             (st1.1, listener.incTcpErrors st1.2))).
  { unfold failed, listener.HandleConn. simpl listener.reads.
    by rewrite readLoop_complete. }
  rewrite HtooLong, Hfailed. simpl.
  repeat split; congruence.
Qed.

End ListenerFacts.

(** ** The event queue *)

Section QueueFacts.

Local Open Scope nat_scope.

Context {A : Type}.
Implicit Types l : list A.

Lemma chunks_length N k l : length (chunks N k l) = k.
Proof. revert l. induction k as [|k IH]; intros l; simpl; [done|]. by rewrite IH. Qed.

Lemma chunks_add N k0 k l :
  chunks N (k0 + k) l = chunks N k0 l ++ chunks N k (drop (k0 * N) l).
Proof.
  revert l. induction k0 as [|k0 IH]; intros l; simpl; [done|].
  rewrite IH, drop_drop. done.
Qed.

Lemma chunks_app N k l l' :
  k * N ≤ length l → chunks N k (l ++ l') = chunks N k l.
Proof.
  revert l. induction k as [|k IH]; intros l Hle; simpl in *; [done|].
  rewrite take_app_le, drop_app_le by lia.
  rewrite IH; [done|]. rewrite length_drop. lia.
Qed.

Lemma chunks_concat N k l : concat (chunks N k l) = take (k * N) l.
Proof.
  revert l. induction k as [|k IH]; intros l; simpl; [by rewrite take_0|].
  rewrite IH. apply take_take_drop.
Qed.

Lemma chunks_full N k l :
  k * N ≤ length l → Forall (λ b, length b = N) (chunks N k l).
Proof.
  revert l. induction k as [|k IH]; intros l Hle; simpl in *; constructor.
  - rewrite length_take. lia.
  - apply IH. rewrite length_drop. lia.
Qed.

End QueueFacts.

Section EventQueueFacts.

Local Open Scope nat_scope.
Import queue.

Lemma flushFull_rounds N k :
  0 < N → ∀ fuel out buf fl m,
  length buf = k * N + m → m < N → k ≤ fuel →
  flushFull fuel {| C := out; q := buf; flushThreshold := N; eventsFlushed := fl |}
  = Some {| C := out ++ chunks N k buf; q := drop (k * N) buf;
            flushThreshold := N; eventsFlushed := fl + k |}.
Proof.
  intros HN. induction k as [|k IH]; intros fuel out buf fl m Hlen Hm Hfuel.
  - assert (Hlt : (length buf <? N) = true) by (apply Nat.ltb_lt; lia).
    destruct fuel; simpl; rewrite Hlt, app_nil_r, Nat.add_0_r; done.
  - assert (Hge : (length buf <? N) = false) by (apply Nat.ltb_ge; lia).
    destruct fuel as [|fuel]; [lia|]. simpl. rewrite Hge.
    unfold cutBatch; simpl.
    rewrite (IH fuel _ _ _ m); [|rewrite length_drop; lia|done|lia].
    rewrite <- app_assoc, drop_drop. simpl.
    do 2 f_equal. lia.
Qed.

Lemma Queue_queued N all events :
  0 < N → Queue events (queued N all) = Some (queued N (all ++ events)).
Proof.
  intros HN. unfold Queue, queued; simpl.
  set (k0 := length all / N).
  set (buf := drop (k0 * N) all ++ events).
  assert (Hk0 : k0 * N ≤ length all) by (unfold k0; rewrite Nat.mul_comm; apply Nat.Div0.mul_div_le).
  assert (Hbuf : length buf = length all - k0 * N + length events).
  { unfold buf. rewrite length_app, length_drop. done. }
  assert (Hall : length (all ++ events) = length all + length events)
    by apply length_app.
  assert (Hsplit : length (all ++ events) / N = k0 + length buf / N).
  { rewrite Hall, Hbuf.
    replace (length all + length events)
      with (k0 * N + (length all - k0 * N + length events)) by lia.
    rewrite Nat.div_add_l by lia. done. }
  rewrite (flushFull_rounds N (length buf / N) HN _ _ _ _ (length buf mod N)).
  - rewrite Hsplit, chunks_add. fold buf.
    rewrite (chunks_app N k0 all events) by done.
    replace (drop ((k0 + length buf / N) * N) (all ++ events))
      with (drop (length buf / N * N) (drop (k0 * N) (all ++ events)))
      by (rewrite drop_drop; f_equal; lia).
    rewrite (drop_app_le all events (k0 * N)) by done. done.
  - pose proof (Nat.div_mod_eq (length buf) N). lia.
  - apply Nat.mod_upper_bound. lia.
  - apply Nat.Div0.div_le_upper_bound. nia.
Qed.

Lemma QueueAll_queued N calls all :
  0 < N → QueueAll calls (queued N all) = Some (queued N (all ++ concat calls)).
Proof.
  intros HN. revert all. induction calls as [|events calls IH]; intros all; simpl.
  - by rewrite app_nil_r.
  - rewrite Queue_queued by done. rewrite IH, <- app_assoc. done.
Qed.

Lemma queued_facts N all :
  0 < N →
  length (C (queued N all)) = length all / N ∧
  Forall (λ b, length b = N) (C (queued N all)) ∧
  concat (C (queued N all)) ++ q (queued N all) = all ∧
  length (q (queued N all)) = length all mod N.
Proof.
  intros HN. unfold queued; simpl.
  assert (Hk : length all / N * N ≤ length all)
    by (rewrite Nat.mul_comm; apply Nat.Div0.mul_div_le).
  repeat split.
  - apply chunks_length.
  - by apply chunks_full.
  - rewrite chunks_concat. apply take_drop.
  - rewrite length_drop. pose proof (Nat.div_mod_eq (length all) N). lia.
Qed.

(** C4. A queue of threshold [N] that is handed [k*N + m] events
    ([m < N]) over any number of [Queue] calls has sent [k] batches of [N]
    events and buffers [m]; batches and buffer together are the events in
    the order they came; and the batches are cut before [Queue] returns:
    after every call fewer than [N] events are buffered. *)
Theorem EventQueue_threshold_batches (N k m : nat) (calls : list Events) :
  m < N →
  length (concat calls) = k * N + m →
  ∃ eq, QueueAll calls (NewEventQueue N) = Some eq ∧
    length (C eq) = k ∧
    Forall (λ batch, length batch = N) (C eq) ∧
    eventsFlushed eq = k ∧
    length (q eq) = m ∧
    concat (C eq) ++ q eq = concat calls ∧
    ∀ calls1 calls2, calls = calls1 ++ calls2 →
      ∃ eq1, QueueAll calls1 (NewEventQueue N) = Some eq1 ∧
        length (q eq1) < N ∧
        concat (C eq1) ++ q eq1 = concat calls1.
Proof.
  intros Hm Hlen.
  assert (HN : 0 < N) by lia.
  assert (Hnew : NewEventQueue N = queued N []).
  { unfold NewEventQueue, queued. simpl. by rewrite Nat.Div0.div_0_l. }
  assert (Hk : length (concat calls) / N = k).
  { rewrite Hlen. rewrite Nat.div_add_l by lia. rewrite Nat.div_small by done. lia. }
  assert (Hmod : length (concat calls) mod N = m).
  { rewrite Hlen, Nat.add_comm, Nat.Div0.mod_add. by apply Nat.mod_small. }
  exists (queued N (concat calls)).
  destruct (queued_facts N (concat calls) HN) as (Hc & Hfull & Horder & Hq).
  split; [rewrite Hnew; by rewrite QueueAll_queued|].
  split; [congruence|]. split; [done|]. split; [done|].
  split; [congruence|]. split; [done|].
  intros calls1 calls2 _.
  exists (queued N (concat calls1)).
  destruct (queued_facts N (concat calls1) HN) as (_ & _ & Horder1 & Hq1).
  split; [rewrite Hnew; by rewrite QueueAll_queued|].
  split; [|done]. rewrite Hq1. apply Nat.mod_upper_bound. lia.
Qed.

End EventQueueFacts.

(** * Further properties of the parser, the listeners and [util] *)

(** ** Cutting and splitting *)

Lemma cut_none s sep : strings.Count s sep = 0%nat → strings.cut s sep = None.
Proof.
  unfold strings.cut. induction s as [|c s IH]; simpl; [done|].
  rewrite (Ascii.eqb_sym sep c).
  destruct (Ascii.eqb c sep); [done|]. intros Hs. by rewrite IH.
Qed.

Lemma cut_app k v sep :
  strings.Count k sep = 0%nat →
  strings.cut (k +:+ String sep v) sep = Some (k, v).
Proof.
  unfold strings.cut. induction k as [|c k IH]; simpl.
  - by rewrite Ascii.eqb_refl.
  - rewrite (Ascii.eqb_sym sep c).
    destruct (Ascii.eqb c sep); [done|]. intros Hk.
    change (String.append k (String sep v)) with (k +:+ String sep v).
    by rewrite IH.
Qed.

Lemma cut_Some s sep k v :
  strings.cut s sep = Some (k, v) →
  s = k +:+ String sep v ∧ strings.Count k sep = 0%nat.
Proof.
  unfold strings.cut. revert k. induction s as [|c s IH]; intros k; simpl; [done|].
  rewrite (Ascii.eqb_sym sep c).
  destruct (Ascii.eqb_spec c sep) as [->|Hne].
  - by intros [= <- <-].
  - destruct (strings.cut_at (Ascii.eqb sep) s) as [[a b]|]; [|done].
    intros [= <- <-]. destruct (IH a eq_refl) as [-> Hcount].
    split; [done|]. simpl. apply Ascii.eqb_neq in Hne. by rewrite Hne.
Qed.

Lemma Split_single s sep : strings.Count s sep = 0%nat → strings.Split s sep = [s].
Proof.
  induction s as [|c s IH]; simpl; [done|].
  destruct (Ascii.eqb c sep); [done|]. intros Hs. by rewrite IH.
Qed.

Lemma Split_app a b sep :
  strings.Split (a +:+ String sep b) sep
  = strings.Split a sep ++ strings.Split b sep.
Proof.
  induction a as [|c a IH]; simpl.
  - by rewrite Ascii.eqb_refl.
  - change (String.append a (String sep b)) with (a +:+ String sep b).
    rewrite IH. destruct (Ascii.eqb c sep); [done|].
    destruct (strings.Split a sep) as [|p ps] eqn:Ha; [|done].
    by apply Split_nonempty in Ha.
Qed.

Lemma removelast_shorter {A} (l : list A) : (length (removelast l) ≤ length l)%nat.
Proof.
  induction l as [|x [|y l] IH]; simpl in *; lia.
Qed.

Lemma tagFields_length component :
  (length (tagFields component) ≤ strings.Count component "," + 1)%nat.
Proof.
  unfold tagFields. pose proof (Split_length component ",") as Hlen.
  destruct (last (strings.Split component ",")) as [[|c s]|].
  - pose proof (removelast_shorter (strings.Split component ",")) as Hrm. lia.
  - lia.
  - lia.
Qed.

Lemma tagFields_last a f :
  f ≠ "" → strings.Count f "," = 0%nat →
  tagFields (a +:+ String "," f) = strings.Split a "," ++ [f].
Proof.
  intros Hf Hcount. unfold tagFields.
  rewrite Split_app, (Split_single f) by done.
  rewrite last_snoc. by destruct f.
Qed.

Lemma Count_app a b sep :
  strings.Count (a +:+ b) sep = (strings.Count a sep + strings.Count b sep)%nat.
Proof.
  induction a as [|c a IH]; simpl; [done|].
  change (String.append a b) with (a +:+ b). rewrite IH. lia.
Qed.

(** ** Tags *)

Section TagFacts.

Variable EscapeMetricName : string → string.

Abbreviation parseTag := (parseTag EscapeMetricName).
Abbreviation parseNameTags := (parseNameTags EscapeMetricName).
Abbreviation ParseDogStatsDTags := (ParseDogStatsDTags EscapeMetricName).
Abbreviation parseNameAndTags := (parseNameAndTags EscapeMetricName).

Lemma parseTag_parses tag sep (lbls : gmap string string) te :
  tagParses sep tag = true →
  ∃ k v, tag = k +:+ String sep v ∧ k ≠ "" ∧ v ≠ "" ∧
    strings.Count k sep = 0%nat ∧
    parseTag tag sep lbls te = (<[EscapeMetricName k := v]> lbls, te).
Proof.
  unfold tagParses, line.parseTag.
  destruct (strings.cut tag sep) as [[k v]|] eqn:Hcut; [|done].
  destruct (cut_Some _ _ _ _ Hcut) as [-> Hcount].
  intros Hkv. apply andb_true_iff in Hkv as [Hk Hv].
  exists k, v. destruct k as [|c k]; [done|]. destruct v as [|d v]; [done|].
  by repeat split.
Qed.

Lemma parseTag_fails tag sep (lbls : gmap string string) te :
  tagParses sep tag = false → parseTag tag sep lbls te = (lbls, S te).
Proof.
  unfold tagParses, line.parseTag.
  destruct tag as [|c tag]; [done|].
  change (String.length (String c tag) =? 0)%nat with false. cbv iota.
  destruct (strings.cut (String c tag) sep) as [[k v]|]; [|done].
  by destruct k, v.
Qed.

Lemma parseTag_pair (k v : string) (sep : ascii)
    (lbls : gmap string string) (te : nat) :
  k ≠ "" → v ≠ "" → strings.Count k sep = 0%nat →
  parseTag (k +:+ String sep v) sep lbls te
  = (<[EscapeMetricName k := v]> lbls, te).
Proof.
  intros Hk Hv Hcount.
  unfold line.parseTag. rewrite (cut_app k v sep Hcount).
  destruct k as [|c k]; [done|]. destruct v as [|d v]; [done|]. done.
Qed.

(** X1. A tag [k<sep>v] with a key free of the separator, key and value
    not empty, is stored under the escaped key with the whole of [v] as its
    value, separators in [v] included, and is no tag error. *)
Theorem parseTag_stores (k v : string) (sep : ascii)
    (lbls : gmap string string) (te : nat) :
  k ≠ "" → v ≠ "" → strings.Count k sep = 0%nat →
  parseTag (k +:+ String sep v) sep lbls te
  = (<[EscapeMetricName k := v]> lbls, te) ∧
  (parseTag (k +:+ String sep v) sep lbls te).1 !! EscapeMetricName k = Some v.
Proof.
  intros Hk Hv Hcount.
  rewrite (parseTag_pair k v sep lbls te Hk Hv Hcount).
  split; [done|]. apply lookup_insert_eq.
Qed.


Lemma parseTag_dom tag sep (lbls : gmap string string) te :
  dom lbls ⊆ dom (parseTag tag sep lbls te).1.
Proof.
  destruct (tagParses sep tag) eqn:Hparses.
  - destruct (parseTag_parses tag sep lbls te Hparses) as (k & v & _ & _ & _ & _ & ->).
    simpl. rewrite dom_insert_L. set_solver.
  - by rewrite parseTag_fails.
Qed.

(** [parseNameTags] and [ParseDogStatsDTags] are [tags_loop] for the
    identity and for [trimLeftHash]. *)
Lemma tags_loop_errors (trim : string → string) sep fields
    (st : gmap string string * nat) :
  let out := fold_left (λ st tag, parseTag (trim tag) sep st.1 st.2) fields st in
  out.2 = (st.2 + length (filter (λ t, negb (tagParses sep (trim t))) fields))%nat ∧
  dom st.1 ⊆ dom out.1.
Proof.
  revert st. induction fields as [|f fields IH]; intros st; cbn [fold_left].
  - simpl. split; [lia|done].
  - destruct (IH (parseTag (trim f) sep st.1 st.2)) as [Herr Hdom].
    cbv zeta in *. rewrite Herr. split.
    + rewrite filter_cons. destruct (tagParses sep (trim f)) eqn:Hparses.
      * destruct (parseTag_parses (trim f) sep st.1 st.2 Hparses)
          as (k & v & _ & _ & _ & _ & ->).
        rewrite decide_False by (simpl; congruence). done.
      * rewrite (parseTag_fails _ _ _ _ Hparses).
        rewrite decide_True by done. simpl. lia.
    + etrans; [|exact Hdom]. apply parseTag_dom.
Qed.

Lemma filter_shorter {A} (P : A → Prop) `{∀ x, Decision (P x)} (l : list A) :
  (length (filter P l) ≤ length l)%nat.
Proof. apply length_filter. Qed.

(** X3. Every field between the commas of a tag list is either stored or
    counted: [tagErrors] grows by the number of fields that do not parse,
    which is at most the number of commas plus one, and no label that was
    there before is lost. So do [parseNameTags] with [=] and
    [ParseDogStatsDTags] with [:], after a leading [#] of the field is
    dropped. *)
Theorem tag_errors_accounted (component : string)
    (lbls : gmap string string) (te : nat) :
  let named := parseNameTags component lbls te in
  let dog := ParseDogStatsDTags component lbls te in
  named.2 = (te + length (filter (λ t, negb (tagParses "=" t))
                            (tagFields component)))%nat ∧
  dog.2 = (te + length (filter (λ t, negb (tagParses ":" (trimLeftHash t)))
                          (tagFields component)))%nat ∧
  (te ≤ named.2 ≤ te + strings.Count component "," + 1)%nat ∧
  (te ≤ dog.2 ≤ te + strings.Count component "," + 1)%nat ∧
  dom lbls ⊆ dom named.1 ∧
  dom lbls ⊆ dom dog.1.
Proof.
  intros named dog.
  destruct (tags_loop_errors (λ t, t) "=" (tagFields component) (lbls, te))
    as [Hnamed Hdom].
  destruct (tags_loop_errors trimLeftHash ":" (tagFields component) (lbls, te))
    as [Hdog Hdom'].
  cbv zeta in *. simpl in Hnamed, Hdog, Hdom, Hdom'.
  pose proof (tagFields_length component) as Hlen.
  pose proof (filter_shorter (λ t, negb (tagParses "=" t)) (tagFields component)).
  pose proof (filter_shorter (λ t, negb (tagParses ":" (trimLeftHash t)))
                (tagFields component)).
  unfold named, dog, line.parseNameTags, line.ParseDogStatsDTags.
  rewrite Hnamed, Hdog. repeat split; try done; lia.
Qed.

(** X4. The last tag of a list wins: after [parseNameTags] the escaped key
    of a well-formed last tag maps to the value of that tag, whatever the
    tags before it stored under that key. *)
Theorem last_tag_wins (tags k v : string) (lbls : gmap string string) (te : nat) :
  k ≠ "" → v ≠ "" →
  strings.Count k "=" = 0%nat →
  strings.Count k "," = 0%nat →
  strings.Count v "," = 0%nat →
  (parseNameTags (tags +:+ String "," (k +:+ String "=" v)) lbls te).1
    !! EscapeMetricName k = Some v.
Proof.
  intros Hk Hv Heq Hkc Hvc. unfold line.parseNameTags.
  rewrite tagFields_last.
  - rewrite fold_left_app. cbn [fold_left].
    rewrite (parseTag_pair k v "=" _ _ Hk Hv Heq).
    apply lookup_insert_eq.
  - by destruct k.
  - rewrite Count_app. simpl. lia.
Qed.

Lemma cut_name_found metric c tags :
  strings.Count metric "#" = 0%nat → strings.Count metric "," = 0%nat →
  c = "#"%char ∨ c = ","%char →
  strings.cut_at (λ c, Ascii.eqb c "#" || Ascii.eqb c ",")
                 (metric +:+ String c tags) = Some (metric, tags).
Proof.
  intros Hh Hc Hsep. induction metric as [|d metric IH]; simpl in *.
  - by destruct Hsep as [-> | ->].
  - destruct (Ascii.eqb d "#"); [done|]. destruct (Ascii.eqb d ","); [done|].
    simpl. change (String.append metric (String c tags))
      with (metric +:+ String c tags). by rewrite IH.
Qed.

Lemma cut_name_spec s :
  match strings.cut_at (λ c, Ascii.eqb c "#" || Ascii.eqb c ",") s with
  | Some (a, b) =>
      strings.Count a "#" = 0%nat ∧ strings.Count a "," = 0%nat ∧
      ∃ c, (c = "#"%char ∨ c = ","%char) ∧ s = a +:+ String c b
  | None => strings.Count s "#" = 0%nat ∧ strings.Count s "," = 0%nat
  end.
Proof.
  induction s as [|d s IH]; cbn [strings.cut_at]; [done|].
  destruct (Ascii.eqb_spec d "#") as [->|Hh]; cbn [orb].
  { repeat split. exists "#"%char. split; [by left|done]. }
  destruct (Ascii.eqb_spec d ",") as [->|Hc]; cbn [orb].
  { repeat split. exists ","%char. split; [by right|done]. }
  apply Ascii.eqb_neq in Hh, Hc.
  destruct (strings.cut_at _ s) as [[a b]|].
  - destruct IH as (H1 & H2 & c & Hsep & ->). cbn [strings.Count].
    rewrite Hh, Hc. repeat split; try done. by exists c.
  - cbn [strings.Count]. by rewrite Hh, Hc.
Qed.

(** X5. [parseNameAndTags] cuts the name at its first [#] or [,]: the
    metric it returns holds neither of them and the name starts with it; a
    name that holds neither is returned whole, labels and tag errors
    untouched; and what follows the cut goes to [parseNameTags]. *)
Theorem parseNameAndTags_cuts (name : string) (lbls : gmap string string) (te : nat) :
  strings.Count (parseNameAndTags name lbls te).1 "#" = 0%nat ∧
  strings.Count (parseNameAndTags name lbls te).1 "," = 0%nat ∧
  (∃ rest, name = (parseNameAndTags name lbls te).1 +:+ rest) ∧
  (strings.Count name "#" = 0%nat ∧ strings.Count name "," = 0%nat →
   parseNameAndTags name lbls te = (name, (lbls, te))) ∧
  (∀ metric c tags,
     strings.Count metric "#" = 0%nat → strings.Count metric "," = 0%nat →
     c = "#"%char ∨ c = ","%char →
     parseNameAndTags (metric +:+ String c tags) lbls te
     = (metric, parseNameTags tags lbls te)).
Proof.
  unfold line.parseNameAndTags. pose proof (cut_name_spec name) as Hcut.
  split; [|split; [|split; [|split]]].
  - destruct (strings.cut_at _ name) as [[a b]|]; simpl; tauto.
  - destruct (strings.cut_at _ name) as [[a b]|]; simpl; tauto.
  - destruct (strings.cut_at _ name) as [[a b]|]; simpl.
    + destruct Hcut as (_ & _ & c & _ & ->). by eexists.
    + exists "". clear. induction name as [|c name IH]; [done|].
      change (String c name +:+ "") with (String c (name +:+ "")).
      by rewrite <- IH.
  - intros [Hh Hc].
    destruct (strings.cut_at _ name) as [[a b]|]; [|done].
    destruct Hcut as (_ & _ & c & Hsep & ->).
    rewrite Count_app in Hh, Hc. simpl in Hh, Hc.
    destruct Hsep as [-> | ->]; simpl in *; lia.
  - intros metric c tags Hh Hc Hsep. by rewrite cut_name_found.
Qed.

End TagFacts.

(** ** The leading [#] of a DogStatsD tag *)

Lemma tagFields_single s :
  s ≠ "" → strings.Count s "," = 0%nat → tagFields s = [s].
Proof.
  intros Hs Hcount. unfold tagFields. rewrite (Split_single _ _ Hcount).
  cbn [last]. by destruct s.
Qed.

Lemma Split_one s sep p : strings.Split s sep = [p] → p = s.
Proof.
  intros Hsplit. pose proof (Split_length s sep) as Hlen.
  rewrite Hsplit in Hlen. cbn [length] in Hlen.
  rewrite Split_single in Hsplit by lia. congruence.
Qed.

Lemma tagFields_cons c s :
  Ascii.eqb c "," = false → s ≠ "" →
  ∃ f fs, tagFields s = f :: fs ∧ tagFields (String c s) = String c f :: fs ∧
          hashed f = hashed s.
Proof.
  intros Hc Hs. unfold tagFields. cbn [strings.Split]. rewrite Hc.
  pose proof (Split_head_hashed s ","%char) as Hhead.
  destruct (strings.Split s ",") as [|p [|p' ps]] eqn:Hsplit.
  - by destruct (Split_nonempty s ",").
  - apply Split_one in Hsplit as ->. cbn [last]. cbn [hd] in Hhead.
    destruct s as [|c0 s]; [done|]. exists (String c0 s), []. by auto.
  - cbn [hd] in Hhead.
    change (last (String c p :: p' :: ps)) with (last (p' :: ps)).
    change (last (p :: p' :: ps)) with (last (p' :: ps)).
    destruct (last (p' :: ps)) as [[|c1 l]|].
    + exists p, (removelast (p' :: ps)). by auto.
    + exists p, (p' :: ps). by auto.
    + exists p, (p' :: ps). by auto.
Qed.

Section DogStatsDFacts.

Variable EscapeMetricName : string → string.

Abbreviation ParseDogStatsDTags := (ParseDogStatsDTags EscapeMetricName).

(** X27. In the tags of DogStatsD a tag may start with a [#], which is
    dropped: [#k:v] is stored as [k:v] is. One [#] is dropped and no more,
    so a tag [##k:v] is stored under the escaped key [#k]; and a [#] with
    nothing after it is an empty tag, a tag error. *)
Theorem dogstatsd_leading_hash (component : string)
    (lbls : gmap string string) (te : nat) :
  component ≠ "" → hashed component = false →
  ParseDogStatsDTags (String "#" component) lbls te
    = ParseDogStatsDTags component lbls te ∧
  (strings.Count component "," = 0%nat →
   ParseDogStatsDTags (String "#" (String "#" component)) lbls te
   = parseTag EscapeMetricName (String "#" component) ":" lbls te) ∧
  ParseDogStatsDTags "#" lbls te = (lbls, S te).
Proof.
  intros Hne Hhashed. split; [|split; [|done]].
  - unfold line.ParseDogStatsDTags.
    destruct (tagFields_cons "#" component eq_refl Hne)
      as (f & fs & -> & -> & Hf).
    cbn [fold_left fst snd trimLeftHash].
    rewrite Hhashed in Hf.
    assert (Htrim : trimLeftHash f = f).
    { destruct f as [|c0 f]; [done|]. cbn [hashed] in Hf.
      unfold trimLeftHash.
      destruct (Ascii.eqb_spec c0 "#") as [->|Hc0]; [done|].
      by destruct c0 as [[] [] [] [] [] [] [] []]. }
    by rewrite Htrim.
  - intros Hcount. unfold line.ParseDogStatsDTags.
    rewrite tagFields_single; [done|done|].
    cbn [strings.Count Ascii.eqb Bool.eqb]. by rewrite Hcount.
Qed.

End DogStatsDFacts.

(** ** Counters only add up *)

Lemma count_addMetrics reason m d :
  count reason (sampleErrors (addMetrics m d))
  = (count reason (sampleErrors m) + count reason (sampleErrors d))%nat.
Proof.
  unfold count, addMetrics; simpl. rewrite lookup_union_with.
  destruct (sampleErrors m !! reason), (sampleErrors d !! reason); simpl; lia.
Qed.

Lemma addMetrics_incSampleErrors reason m d :
  incSampleErrors reason (addMetrics m d) = addMetrics m (incSampleErrors reason d).
Proof.
  unfold incSampleErrors. rewrite count_addMetrics.
  unfold addMetrics; simpl. f_equal.
  apply map_eq. intros r. rewrite lookup_union_with.
  destruct (decide (reason = r)) as [->|Hne].
  - rewrite !lookup_insert_eq. unfold count.
    destruct (sampleErrors m !! r); simpl; f_equal; lia.
  - rewrite !lookup_insert_ne by done. by rewrite lookup_union_with.
Qed.

Lemma addMetrics_incSamplesReceived m d :
  incSamplesReceived (addMetrics m d) = addMetrics m (incSamplesReceived d).
Proof. unfold incSamplesReceived, addMetrics; simpl. f_equal. lia. Qed.

Lemma addMetrics_incTagsReceived m d :
  incTagsReceived (addMetrics m d) = addMetrics m (incTagsReceived d).
Proof. unfold incTagsReceived, addMetrics; simpl. f_equal. lia. Qed.

Lemma addMetrics_setTagErrors m d te :
  setTagErrors (tagErrors m + te) (addMetrics m d) = addMetrics m (setTagErrors te d).
Proof. reflexivity. Qed.

Lemma addMetrics_noMetrics m : addMetrics m noMetrics = m.
Proof.
  destruct m as [se sr te tr]. unfold addMetrics, noMetrics; simpl.
  f_equal; try lia. apply map_eq. intros r. rewrite lookup_union_with.
  rewrite lookup_empty. by destruct (se !! r).
Qed.

Section CounterFacts.

Variable EscapeMetricName : string → string.
Variable ParseFloat : string → float * option NumError.

Abbreviation LineToEvents := (LineToEvents EscapeMetricName ParseFloat).
Abbreviation sample := (sample EscapeMetricName ParseFloat).
Abbreviation samplesLoop := (samplesLoop EscapeMetricName ParseFloat).
Abbreviation modifier := (modifier EscapeMetricName ParseFloat).

Lemma parseTag_shift tag sep (lbls : gmap string string) a te :
  parseTag EscapeMetricName tag sep lbls (a + te)
  = ((parseTag EscapeMetricName tag sep lbls te).1,
     (a + (parseTag EscapeMetricName tag sep lbls te).2)%nat).
Proof.
  unfold parseTag. destruct (String.length tag =? 0)%nat; simpl; [f_equal; lia|].
  destruct (strings.cut tag sep) as [[k v]|]; simpl; [|f_equal; lia].
  destruct (_ || _); simpl; [f_equal; lia|done].
Qed.

Lemma tags_loop_shift (trim : string → string) sep fields
    (lbls : gmap string string) a te :
  fold_left (λ st tag, parseTag EscapeMetricName (trim tag) sep st.1 st.2)
            fields (lbls, (a + te)%nat)
  = ((fold_left (λ st tag, parseTag EscapeMetricName (trim tag) sep st.1 st.2)
                fields (lbls, te)).1,
     (a + (fold_left (λ st tag, parseTag EscapeMetricName (trim tag) sep st.1 st.2)
                     fields (lbls, te)).2)%nat).
Proof.
  revert lbls te. induction fields as [|f fields IH]; intros lbls te;
    cbn [fold_left]; [done|].
  cbn [fst snd]. rewrite parseTag_shift.
  destruct (parseTag EscapeMetricName (trim f) sep lbls te) as [lbls' te'].
  cbn [fst snd]. apply IH.
Qed.

Lemma parseNameAndTags_shift name (lbls : gmap string string) a te :
  parseNameAndTags EscapeMetricName name lbls (a + te)
  = ((parseNameAndTags EscapeMetricName name lbls te).1,
     ((parseNameAndTags EscapeMetricName name lbls te).2.1,
      (a + (parseNameAndTags EscapeMetricName name lbls te).2.2)%nat)).
Proof.
  unfold parseNameAndTags.
  destruct (strings.cut_at _ name) as [[metric tags]|]; [|done].
  unfold parseNameTags. cbn [fst snd].
  by rewrite (tags_loop_shift (λ t, t)).
Qed.

Lemma modifier_shift statType c m s :
  modifier statType c (shiftSample m s) = shiftSample m (modifier statType c s).
Proof.
  unfold line.modifier. destruct c as [|c0 payload]; [done|].
  destruct (Ascii.eqb c0 "@").
  - destruct (ParseFloat payload) as [parsed err].
    cbn [shiftSample value multiplyEvents labels metrics].
    destruct err as [e|].
    + rewrite addMetrics_incSampleErrors.
      by destruct (String.eqb statType "g"), (String.eqb statType "c"),
        (String.eqb statType "ms" || String.eqb statType "h" || String.eqb statType "d").
    + by destruct (String.eqb statType "g"), (String.eqb statType "c"),
        (String.eqb statType "ms" || String.eqb statType "h" || String.eqb statType "d").
  - destruct (Ascii.eqb c0 "#").
    + cbn [shiftSample value multiplyEvents labels metrics].
      change (tagErrors (addMetrics m (metrics s)))
        with (tagErrors m + tagErrors (metrics s))%nat.
      unfold ParseDogStatsDTags. rewrite (tags_loop_shift trimLeftHash).
      destruct (fold_left _ (tagFields payload) (labels s, tagErrors (metrics s)))
        as [lbls' te'].
      cbn [fst snd]. unfold shiftSample. cbn [value multiplyEvents labels metrics].
      by rewrite addMetrics_setTagErrors.
    + cbn [shiftSample value multiplyEvents labels metrics].
      by rewrite addMetrics_incSampleErrors.
Qed.

Lemma modifiers_shift statType mods m s :
  fold_left (λ s c, modifier statType c s) mods (shiftSample m s)
  = shiftSample m (fold_left (λ s c, modifier statType c s) mods s).
Proof.
  revert s. induction mods as [|c mods IH]; intros s; cbn [fold_left]; [done|].
  by rewrite modifier_shift, IH.
Qed.

Lemma emit_shift n statType metric v relative lbls m d :
  emit n statType metric v relative lbls (addMetrics m d)
  = ((emit n statType metric v relative lbls d).1,
     addMetrics m (emit n statType metric v relative lbls d).2).
Proof.
  revert d. induction n as [|n IH]; intros d; simpl; [done|].
  destruct (buildEvent statType metric v relative lbls) as [e|err].
  - rewrite IH. by destruct (line.emit n statType metric v relative lbls d).
  - rewrite addMetrics_incSampleErrors. apply IH.
Qed.

Lemma sample_shift metric smpl lbls m d :
  sample metric smpl (lbls, addMetrics m d)
  = ((sample metric smpl (lbls, d)).1,
     ((sample metric smpl (lbls, d)).2.1,
      addMetrics m (sample metric smpl (lbls, d)).2.2)).
Proof.
  unfold line.sample. cbn [fst snd].
  rewrite addMetrics_incSamplesReceived.
  destruct (_ || _); [by rewrite addMetrics_incSampleErrors|].
  destruct (strings.Split smpl "|") as [|valueStr [|statType rest]];
    [by rewrite addMetrics_incSampleErrors..|].
  destruct (ParseFloat valueStr) as [v [err|]];
    [by rewrite addMetrics_incSampleErrors|].
  destruct (existsb _ rest); [by rewrite addMetrics_incSampleErrors|].
  change {| value := v; multiplyEvents := 1; labels := lbls;
            metrics := addMetrics m (incSamplesReceived d) |}
    with (shiftSample m {| value := v; multiplyEvents := 1; labels := lbls;
                           metrics := incSamplesReceived d |}).
  rewrite modifiers_shift.
  set (s := fold_left _ rest _).
  cbn [shiftSample value multiplyEvents labels metrics].
  assert (Htags : (if (0 <? size (labels s))%nat
                   then incTagsReceived (addMetrics m (metrics s))
                   else addMetrics m (metrics s))
                  = addMetrics m (if (0 <? size (labels s))%nat
                                  then incTagsReceived (metrics s) else metrics s)).
  { destruct (0 <? size (labels s))%nat; [apply addMetrics_incTagsReceived|done]. }
  rewrite Htags, emit_shift.
  by destruct (line.emit _ _ _ _ _ _ _).
Qed.

Lemma samplesLoop_shift metric samples lbls m d :
  samplesLoop metric samples (lbls, addMetrics m d)
  = ((samplesLoop metric samples (lbls, d)).1,
     ((samplesLoop metric samples (lbls, d)).2.1,
      addMetrics m (samplesLoop metric samples (lbls, d)).2.2)).
Proof.
  revert lbls d. induction samples as [|s samples IH]; intros lbls d; simpl; [done|].
  rewrite sample_shift.
  destruct (sample metric s (lbls, d)) as [es [lbls1 d1]]. cbn [fst snd].
  rewrite IH.
  by destruct (samplesLoop metric samples (lbls1, d1)) as [es' [lbls2 d2]].
Qed.

Lemma LineToEvents_shift line m d :
  LineToEvents line (addMetrics m d)
  = ((LineToEvents line d).1, addMetrics m (LineToEvents line d).2).
Proof.
  unfold line.LineToEvents.
  destruct (String.eqb line ""); [done|].
  destruct (strings.SplitN2 line ":") as [|name [|rest [|? ?]]];
    [by rewrite addMetrics_incSampleErrors..| |by rewrite addMetrics_incSampleErrors].
  destruct (_ || _); [by rewrite addMetrics_incSampleErrors|].
  change (tagErrors (addMetrics m d)) with (tagErrors m + tagErrors d)%nat.
  rewrite parseNameAndTags_shift.
  destruct (parseNameAndTags EscapeMetricName name ∅ (tagErrors d))
    as [metric [lbls te]]. cbn [fst snd].
  rewrite addMetrics_setTagErrors.
  destruct (strings.Contains rest "|#").
  - destruct (0 <? size lbls)%nat; [by rewrite addMetrics_incSampleErrors|].
    rewrite samplesLoop_shift.
    by destruct (samplesLoop metric [rest] _) as [es [lbls' d']].
  - rewrite samplesLoop_shift.
    by destruct (samplesLoop metric (strings.Split rest ":") _) as [es [lbls' d']].
Qed.

(** X6. The counters never steer the parser: the events of a line are the
    same whatever the counters hold, and the counters after the line are
    those before it plus what the line adds to fresh counters. No counter
    ever goes down. *)
Theorem LineToEvents_adds_to_counters (line : string) (m : Metrics) :
  (LineToEvents line m).1 = (LineToEvents line noMetrics).1 ∧
  (LineToEvents line m).2 = addMetrics m (LineToEvents line noMetrics).2 ∧
  (∀ reason, count reason (sampleErrors m)
             ≤ count reason (sampleErrors (LineToEvents line m).2))%nat ∧
  (samplesReceived m ≤ samplesReceived (LineToEvents line m).2)%nat ∧
  (tagErrors m ≤ tagErrors (LineToEvents line m).2)%nat ∧
  (tagsReceived m ≤ tagsReceived (LineToEvents line m).2)%nat.
Proof.
  pose proof (LineToEvents_shift line m noMetrics) as Hshift.
  rewrite addMetrics_noMetrics in Hshift. rewrite Hshift. cbn [fst snd].
  split; [done|]. split; [done|]. split; [|simpl; lia].
  intros reason. rewrite count_addMetrics. lia.
Qed.

End CounterFacts.

(** ** Lines and samples that are turned down, and plain ones *)

Section SampleFacts.

Variable EscapeMetricName : string → string.
Variable ParseFloat : string → float * option NumError.

Abbreviation LineToEvents := (LineToEvents EscapeMetricName ParseFloat).
Abbreviation sample := (sample EscapeMetricName ParseFloat).
Abbreviation samplesLoop := (samplesLoop EscapeMetricName ParseFloat).
Abbreviation modifier := (modifier EscapeMetricName ParseFloat).

(** X7. A line that is not empty and has no colon, or starts with one,
    gives no event and counts [malformed_line] once; no sample is counted
    and the name is not parsed. *)
Theorem LineToEvents_malformed_line (line : string) (m : Metrics) :
  line ≠ "" →
  strings.Count line ":" = 0%nat ∨ (∃ rest, line = String ":" rest) →
  LineToEvents line m = ([], incSampleErrors "malformed_line" m).
Proof.
  intros Hne Hshape. unfold line.LineToEvents.
  destruct (String.eqb_spec line "") as [->|_]; [done|].
  destruct Hshape as [Hcount|[rest ->]].
  - unfold strings.SplitN2. by rewrite (cut_none _ _ Hcount).
  - reflexivity.
Qed.

(** The line at one of its samples, given what the sample does. *)
Lemma LineToEvents_at line m metric labels0 m1 pre smpl post es st2 :
  lineSamples EscapeMetricName line m metric labels0 m1 (pre ++ smpl :: post) →
  sample metric smpl (samplesLoop metric pre (labels0, m1)).2 = (es, st2) →
  LineToEvents line m
  = ((samplesLoop metric pre (labels0, m1)).1 ++ es
       ++ (samplesLoop metric post st2).1,
     (samplesLoop metric post st2).2.2).
Proof.
  intros Hline Hsample.
  rewrite (LineToEvents_samples _ _ _ _ _ _ _ _ Hline), samplesLoop_app.
  cbn [fst snd line.samplesLoop]. rewrite Hsample.
  by destruct (samplesLoop metric post st2) as [es' st3].
Qed.

Lemma modifier_received statType c s :
  samplesReceived (metrics (modifier statType c s)) = samplesReceived (metrics s) ∧
  tagsReceived (metrics (modifier statType c s)) = tagsReceived (metrics s).
Proof.
  unfold line.modifier. destruct c as [|c0 payload]; [done|].
  destruct (Ascii.eqb c0 "@").
  - destruct (ParseFloat payload) as [parsed [e|]];
      by destruct (String.eqb statType "g"), (String.eqb statType "c"),
        (String.eqb statType "ms" || String.eqb statType "h" || String.eqb statType "d").
  - destruct (Ascii.eqb c0 "#"); [|done].
    by destruct (ParseDogStatsDTags _ _ _ _).
Qed.

Lemma modifiers_received statType mods s :
  samplesReceived (metrics (fold_left (λ s c, modifier statType c s) mods s))
    = samplesReceived (metrics s) ∧
  tagsReceived (metrics (fold_left (λ s c, modifier statType c s) mods s))
    = tagsReceived (metrics s).
Proof.
  revert s. induction mods as [|c mods IH]; intros s; cbn [fold_left]; [done|].
  destruct (IH (modifier statType c s)) as [-> ->]. apply modifier_received.
Qed.

Lemma emit_received n statType metric v relative lbls m :
  samplesReceived (emit n statType metric v relative lbls m).2 = samplesReceived m ∧
  tagsReceived (emit n statType metric v relative lbls m).2 = tagsReceived m ∧
  tagErrors (emit n statType metric v relative lbls m).2 = tagErrors m.
Proof.
  revert m. induction n as [|n IH]; intros m; simpl; [done|].
  destruct (buildEvent statType metric v relative lbls) as [e|err].
  - specialize (IH m). by destruct (emit n statType metric v relative lbls m).
  - apply (IH (incSampleErrors "illegal_event" m)).
Qed.

Lemma sample_received metric smpl st :
  samplesReceived (sample metric smpl st).2.2 = S (samplesReceived st.2) ∧
  (tagsReceived st.2 ≤ tagsReceived (sample metric smpl st).2.2
   ≤ S (tagsReceived st.2))%nat.
Proof.
  unfold line.sample.
  destruct (_ || _); [simpl; lia|].
  destruct (strings.Split smpl "|") as [|valueStr [|statType rest]];
    [simpl; lia..|].
  destruct (ParseFloat valueStr) as [v [err|]]; [simpl; lia|].
  destruct (existsb _ rest); [simpl; lia|].
  set (s := fold_left _ rest _).
  destruct (modifiers_received statType rest
              {| value := v; multiplyEvents := 1; labels := st.1;
                 metrics := incSamplesReceived st.2 |}) as [Hs Ht].
  fold s in Hs, Ht. simpl in Hs, Ht.
  set (m' := if (0 <? size (labels s))%nat
             then incTagsReceived (metrics s) else metrics s).
  destruct (emit_received (Z.to_nat (multiplyEvents s)) statType metric (value s)
              ((strings.Index valueStr "+" =? 0) || (strings.Index valueStr "-" =? 0))
              (labels s) m') as (He1 & He2 & _).
  destruct (emit _ _ _ _ _ _ m') as [es m'']. cbn [fst snd] in *.
  rewrite He1, He2. unfold m'.
  destruct (0 <? size (labels s))%nat; simpl; lia.
Qed.

Lemma samplesLoop_received metric samples st :
  samplesReceived (samplesLoop metric samples st).2.2
    = (samplesReceived st.2 + length samples)%nat ∧
  (tagsReceived st.2 ≤ tagsReceived (samplesLoop metric samples st).2.2
   ≤ tagsReceived st.2 + length samples)%nat.
Proof.
  revert st. induction samples as [|s samples IH]; intros st; simpl; [lia|].
  pose proof (sample_received metric s st) as Hs.
  destruct (sample metric s st) as [es st1]. cbn [fst snd] in Hs.
  specialize (IH st1).
  destruct (samplesLoop metric samples st1) as [es' st2]. cbn [fst snd] in *.
  lia.
Qed.

(** X8. A line that reaches the loop over its samples counts every one of
    them in [samplesReceived], whatever becomes of the sample, and counts
    tags at most once per sample. *)
Theorem samples_are_counted (line : string) (m : Metrics) (metric : string)
    (labels0 : gmap string string) (m1 : Metrics) (samples : list string) :
  lineSamples EscapeMetricName line m metric labels0 m1 samples →
  samplesReceived (LineToEvents line m).2
    = (samplesReceived m + length samples)%nat ∧
  (tagsReceived m ≤ tagsReceived (LineToEvents line m).2
   ≤ tagsReceived m + length samples)%nat.
Proof.
  intros Hline. rewrite (LineToEvents_samples _ _ _ _ _ _ _ _ Hline).
  destruct Hline as (name & rest & te & _ & _ & _ & _ & -> & _).
  pose proof (samplesLoop_received metric samples (labels0, setTagErrors te m))
    as Hloop.
  by cbn [fst snd samplesReceived tagsReceived setTagErrors] in *.
Qed.

Lemma sample_few_components metric smpl st :
  (strings.Count smpl "|" = 0 ∨ 3 < strings.Count smpl "|")%nat →
  sample metric smpl st
  = ([], (st.1, incSampleErrors "malformed_component" (incSamplesReceived st.2))).
Proof.
  intros Hcount. unfold line.sample. rewrite Split_length.
  destruct (Nat.ltb_spec (S (strings.Count smpl "|")) 2),
    (Nat.ltb_spec 4 (S (strings.Count smpl "|"))); try done; lia.
Qed.

(** X9. A sample without a [|], or with more than three of them, gives no
    event and counts [malformed_component] once; the labels are kept, and
    the samples after it are handled as they would have been. *)
Theorem sample_malformed_component (line : string) (m : Metrics) (metric : string)
    (labels0 : gmap string string) (m1 : Metrics)
    (pre : list string) (smpl : string) (post : list string) :
  lineSamples EscapeMetricName line m metric labels0 m1 (pre ++ smpl :: post) →
  (strings.Count smpl "|" = 0 ∨ 3 < strings.Count smpl "|")%nat →
  let st1 := (samplesLoop metric pre (labels0, m1)).2 in
  let st2 := (st1.1, incSampleErrors "malformed_component"
                       (incSamplesReceived st1.2)) in
  sample metric smpl st1 = ([], st2) ∧
  LineToEvents line m
  = ((samplesLoop metric pre (labels0, m1)).1 ++ (samplesLoop metric post st2).1,
     (samplesLoop metric post st2).2.2).
Proof.
  intros Hline Hcount st1 st2.
  pose proof (sample_few_components metric smpl st1 Hcount) as Hsample.
  split; [done|].
  by rewrite (LineToEvents_at _ _ _ _ _ _ _ _ _ _ Hline Hsample).
Qed.

Lemma sample_components metric smpl st valueStr statType mods :
  strings.Split smpl "|" = valueStr :: statType :: mods →
  (length mods ≤ 2)%nat →
  sample metric smpl st
  = match ParseFloat valueStr with
    | (_, Some _) =>
        ([], (st.1, incSampleErrors "malformed_value" (incSamplesReceived st.2)))
    | (v, None) =>
        if existsb (λ c, (String.length c =? 0)%nat) mods then
          ([], (st.1, incSampleErrors "malformed_component"
                        (incSamplesReceived st.2)))
        else
          let s := afterModifiers EscapeMetricName ParseFloat statType mods v st in
          let m' := if (0 <? size (labels s))%nat
                    then incTagsReceived (metrics s) else metrics s in
          ((emit (Z.to_nat (multiplyEvents s)) statType metric (value s)
                 (relativeValue valueStr) (labels s) m').1,
           (labels s,
            (emit (Z.to_nat (multiplyEvents s)) statType metric (value s)
                  (relativeValue valueStr) (labels s) m').2))
    end.
Proof.
  intros Hsplit Hlen. unfold line.sample. rewrite Hsplit.
  cbn [length].
  destruct (Nat.ltb_spec (S (S (length mods))) 2); [lia|].
  destruct (Nat.ltb_spec 4 (S (S (length mods)))); [lia|].
  cbn [orb]. destruct (ParseFloat valueStr) as [v [err|]]; [done|].
  destruct (existsb _ mods); [done|].
  unfold afterModifiers, relativeValue.
  by destruct (emit _ _ _ _ _ _ _).
Qed.

(** X10. A sample whose value [strconv.ParseFloat] turns down gives no
    event and counts [malformed_value] once, whatever its type and its
    modifiers are; the samples after it are handled as they would have
    been. *)
Theorem sample_malformed_value (line : string) (m : Metrics) (metric : string)
    (labels0 : gmap string string) (m1 : Metrics)
    (pre : list string) (smpl : string) (post : list string)
    (valueStr statType : string) (mods : list string) (v : float) (e : NumError) :
  lineSamples EscapeMetricName line m metric labels0 m1 (pre ++ smpl :: post) →
  strings.Split smpl "|" = valueStr :: statType :: mods →
  (length mods ≤ 2)%nat →
  ParseFloat valueStr = (v, Some e) →
  let st1 := (samplesLoop metric pre (labels0, m1)).2 in
  let st2 := (st1.1, incSampleErrors "malformed_value" (incSamplesReceived st1.2)) in
  sample metric smpl st1 = ([], st2) ∧
  LineToEvents line m
  = ((samplesLoop metric pre (labels0, m1)).1 ++ (samplesLoop metric post st2).1,
     (samplesLoop metric post st2).2.2).
Proof.
  intros Hline Hsplit Hlen Hvalue st1 st2.
  assert (Hsample : sample metric smpl st1 = ([], st2)).
  { by rewrite (sample_components _ _ _ _ _ _ Hsplit Hlen), Hvalue. }
  split; [done|].
  by rewrite (LineToEvents_at _ _ _ _ _ _ _ _ _ _ Hline Hsample).
Qed.

Lemma existsb_empty mods :
  "" ∈ mods → existsb (λ c, (String.length c =? 0)%nat) mods = true.
Proof.
  intros Hin. apply existsb_exists. exists "". split; [|done].
  by apply list_elem_of_In.
Qed.

Lemma existsb_nonempty mods :
  Forall (λ c, c ≠ "") mods →
  existsb (λ c, (String.length c =? 0)%nat) mods = false.
Proof.
  induction 1 as [|c mods Hc _ IH]; [done|]. simpl. rewrite IH.
  by destruct c.
Qed.

(** X11. An empty component after the type ([1|c|], [1|c||@0.1],
    [1|c|#a:b|]) makes the sample leave before any modifier is applied:
    no event, [malformed_component] counted once, and the labels and the
    tag errors are those from before the sample, even when a component of
    tags comes first. *)
Theorem sample_empty_component (line : string) (m : Metrics) (metric : string)
    (labels0 : gmap string string) (m1 : Metrics)
    (pre : list string) (smpl : string) (post : list string)
    (valueStr statType : string) (mods : list string) (v : float) :
  lineSamples EscapeMetricName line m metric labels0 m1 (pre ++ smpl :: post) →
  strings.Split smpl "|" = valueStr :: statType :: mods →
  (length mods ≤ 2)%nat →
  ParseFloat valueStr = (v, None) →
  "" ∈ mods →
  let st1 := (samplesLoop metric pre (labels0, m1)).2 in
  let st2 := (st1.1, incSampleErrors "malformed_component"
                       (incSamplesReceived st1.2)) in
  sample metric smpl st1 = ([], st2) ∧
  tagErrors st2.2 = tagErrors st1.2 ∧
  LineToEvents line m
  = ((samplesLoop metric pre (labels0, m1)).1 ++ (samplesLoop metric post st2).1,
     (samplesLoop metric post st2).2.2).
Proof.
  intros Hline Hsplit Hlen Hvalue Hempty st1 st2.
  assert (Hsample : sample metric smpl st1 = ([], st2)).
  { by rewrite (sample_components _ _ _ _ _ _ Hsplit Hlen), Hvalue,
      (existsb_empty _ Hempty). }
  split; [done|]. split; [done|].
  by rewrite (LineToEvents_at _ _ _ _ _ _ _ _ _ _ Hline Hsample).
Qed.

Lemma modifier_not_timer statType c s :
  isTimer statType = false →
  multiplyEvents (modifier statType c s) = multiplyEvents s.
Proof.
  unfold isTimer. intros Htimer. unfold line.modifier.
  destruct c as [|c0 payload]; [done|].
  destruct (Ascii.eqb c0 "@").
  - destruct (ParseFloat payload) as [parsed err]. rewrite Htimer.
    by destruct (String.eqb statType "g"), (String.eqb statType "c").
  - destruct (Ascii.eqb c0 "#"); [|done].
    by destruct (ParseDogStatsDTags _ _ _ _).
Qed.

Lemma modifiers_not_timer statType mods s :
  isTimer statType = false →
  multiplyEvents (fold_left (λ s c, modifier statType c s) mods s)
  = multiplyEvents s.
Proof.
  intros Htimer. revert s.
  induction mods as [|c mods IH]; intros s; cbn [fold_left]; [done|].
  by rewrite IH, modifier_not_timer.
Qed.

Lemma modifier_other_reasons reason statType c s :
  reason ≠ "invalid_sample_factor" →
  count reason (sampleErrors (metrics (modifier statType c s)))
  = count reason (sampleErrors (metrics s)).
Proof.
  intros Hreason. unfold line.modifier. destruct c as [|c0 payload]; [done|].
  destruct (Ascii.eqb c0 "@").
  - destruct (ParseFloat payload) as [parsed [e|]];
      destruct (String.eqb statType "g"), (String.eqb statType "c"),
        (String.eqb statType "ms" || String.eqb statType "h" || String.eqb statType "d");
      cbn [metrics]; try done; by apply count_incSampleErrors_ne.
  - destruct (Ascii.eqb c0 "#").
    + by destruct (ParseDogStatsDTags _ _ _ _).
    + cbn [metrics]. by apply count_incSampleErrors_ne.
Qed.

Lemma modifiers_other_reasons reason statType mods s :
  reason ≠ "invalid_sample_factor" →
  count reason (sampleErrors (metrics (fold_left (λ s c, modifier statType c s) mods s)))
  = count reason (sampleErrors (metrics s)).
Proof.
  intros Hreason. revert s.
  induction mods as [|c mods IH]; intros s; cbn [fold_left]; [done|].
  by rewrite IH, modifier_other_reasons.
Qed.

Lemma knownType_buildEvent statType metric v relative lbls :
  buildEvent statType metric v relative lbls
  = if knownType statType then inl (eventOf statType metric v relative lbls)
    else inr (if String.eqb statType "s" then "no support for StatsD sets"
              else "bad stat type " +:+ statType).
Proof.
  unfold buildEvent, knownType, eventOf, isTimer.
  by destruct (String.eqb statType "c"), (String.eqb statType "g"),
    (String.eqb statType "ms" || String.eqb statType "h" || String.eqb statType "d"),
    (String.eqb statType "s").
Qed.

Lemma knownType_not_timer statType : knownType statType = false → isTimer statType = false.
Proof. unfold knownType. by intros [_ Htimer]%orb_false_elim. Qed.

(** X12. A sample of a type [buildEvent] does not know, the sets [s] of
    StatsD among them, gives no event and counts [illegal_event] exactly
    once, whatever its modifiers are: only timers are multiplied, and the
    modifiers count nothing under this reason. *)
Theorem sample_illegal_event (line : string) (m : Metrics) (metric : string)
    (labels0 : gmap string string) (m1 : Metrics)
    (pre : list string) (smpl : string) (post : list string)
    (valueStr statType : string) (mods : list string) (v : float) :
  lineSamples EscapeMetricName line m metric labels0 m1 (pre ++ smpl :: post) →
  strings.Split smpl "|" = valueStr :: statType :: mods →
  (length mods ≤ 2)%nat →
  Forall (λ c, c ≠ "") mods →
  ParseFloat valueStr = (v, None) →
  knownType statType = false →
  let st1 := (samplesLoop metric pre (labels0, m1)).2 in
  let out := sample metric smpl st1 in
  out.1 = [] ∧
  count "illegal_event" (sampleErrors out.2.2)
    = S (count "illegal_event" (sampleErrors st1.2)) ∧
  LineToEvents line m
  = ((samplesLoop metric pre (labels0, m1)).1 ++ (samplesLoop metric post out.2).1,
     (samplesLoop metric post out.2).2.2).
Proof.
  intros Hline Hsplit Hlen Hmods Hvalue Hknown st1 out.
  assert (Hout : out.1 = [] ∧
    count "illegal_event" (sampleErrors out.2.2)
      = S (count "illegal_event" (sampleErrors st1.2))).
  { unfold out.
    rewrite (sample_components _ _ _ _ _ _ Hsplit Hlen), Hvalue,
      (existsb_nonempty _ Hmods).
    cbv zeta. unfold afterModifiers.
    rewrite (modifiers_not_timer _ _ _ (knownType_not_timer _ Hknown)).
    set (s := fold_left _ mods _).
    cbn [multiplyEvents]. change (Z.to_nat 1) with 1%nat. cbn [line.emit].
    rewrite knownType_buildEvent, Hknown. cbn [fst snd line.emit].
    split; [done|].
    rewrite count_incSampleErrors.
    assert (Hcount : count "illegal_event" (sampleErrors (metrics s))
                     = count "illegal_event" (sampleErrors st1.2)).
    { unfold s. by rewrite modifiers_other_reasons. }
    by destruct (0 <? size (labels s))%nat; cbn [sampleErrors incTagsReceived];
      rewrite Hcount. }
  destruct Hout as [Hevents Hcount]. split; [done|]. split; [done|].
  rewrite (LineToEvents_at _ _ _ _ _ _ _ _ _ _ Hline (surjective_pairing out)).
  by rewrite Hevents.
Qed.

(** X13. A sample [value|type] of a known type and without modifiers
    gives exactly the one event of its type, with the value as parsed and
    the labels the line has so far; the sample is counted, and its tags
    when there are labels, and no error is. *)
Theorem sample_plain (line : string) (m : Metrics) (metric : string)
    (labels0 : gmap string string) (m1 : Metrics)
    (pre : list string) (smpl : string) (post : list string)
    (valueStr statType : string) (v : float) :
  lineSamples EscapeMetricName line m metric labels0 m1 (pre ++ smpl :: post) →
  strings.Split smpl "|" = [valueStr; statType] →
  ParseFloat valueStr = (v, None) →
  knownType statType = true →
  let st1 := (samplesLoop metric pre (labels0, m1)).2 in
  let e := eventOf statType metric v (relativeValue valueStr) st1.1 in
  let st2 := (st1.1, countSample st1.1 st1.2) in
  sample metric smpl st1 = ([e], st2) ∧
  sampleErrors st2.2 = sampleErrors st1.2 ∧
  LineToEvents line m
  = ((samplesLoop metric pre (labels0, m1)).1 ++ e :: (samplesLoop metric post st2).1,
     (samplesLoop metric post st2).2.2).
Proof.
  intros Hline Hsplit Hvalue Hknown st1 e st2.
  assert (Hsample : sample metric smpl st1 = ([e], st2)).
  { rewrite (sample_components _ _ _ _ _ _ Hsplit), Hvalue by (simpl; lia).
    cbn [existsb afterModifiers fold_left multiplyEvents value labels metrics].
    change (Z.to_nat 1) with 1%nat. cbn [line.emit].
    rewrite knownType_buildEvent, Hknown. cbn [fst snd line.emit].
    unfold st2, countSample. by destruct (0 <? size st1.1)%nat. }
  split; [done|]. split.
  { unfold st2, countSample. by destruct (0 <? size st1.1)%nat. }
  by rewrite (LineToEvents_at _ _ _ _ _ _ _ _ _ _ Hline Hsample).
Qed.


Lemma emit_names n statType metric v relative lbls m :
  Forall (λ e, MetricName e = metric) (emit n statType metric v relative lbls m).1.
Proof.
  revert m. induction n as [|n IH]; intros m; simpl; [done|].
  rewrite knownType_buildEvent. destruct (knownType statType).
  - specialize (IH m). destruct (emit n statType metric v relative lbls m).
    cbn [fst] in *. constructor; [|done].
    unfold eventOf. by destruct (String.eqb statType "c"), (String.eqb statType "g").
  - apply IH.
Qed.

Lemma emit_length n statType metric v relative lbls m :
  (length (emit n statType metric v relative lbls m).1 ≤ n)%nat.
Proof.
  revert m. induction n as [|n IH]; intros m; simpl; [done|].
  destruct (buildEvent statType metric v relative lbls) as [e|err].
  - specialize (IH m). destruct (emit n statType metric v relative lbls m).
    simpl in *. lia.
  - specialize (IH (incSampleErrors "illegal_event" m)). lia.
Qed.

Lemma sample_names metric smpl st :
  Forall (λ e, MetricName e = metric) (sample metric smpl st).1.
Proof.
  unfold line.sample.
  destruct (_ || _); [done|].
  destruct (strings.Split smpl "|") as [|valueStr [|statType rest]]; [done..|].
  destruct (ParseFloat valueStr) as [v [err|]]; [done|].
  destruct (existsb _ rest); [done|].
  match goal with
  | |- context [emit ?n ?t ?mt ?v ?r ?l ?m] =>
      pose proof (emit_names n t mt v r l m) as Hnames;
      destruct (emit n t mt v r l m)
  end.
  done.
Qed.

Lemma samplesLoop_names metric samples st :
  Forall (λ e, MetricName e = metric) (samplesLoop metric samples st).1.
Proof.
  revert st. induction samples as [|s samples IH]; intros st; simpl; [done|].
  pose proof (sample_names metric s st) as Hs.
  destruct (sample metric s st) as [es st1].
  specialize (IH st1). destruct (samplesLoop metric samples st1) as [es' st2].
  cbn [fst] in *. by apply Forall_app.
Qed.

(** X16. Every event of a line carries the metric name the line starts
    with, as [parseNameAndTags] returned it: the name is not escaped, and
    no sample changes it. *)
Theorem events_carry_the_name (line : string) (m : Metrics) (metric : string)
    (labels0 : gmap string string) (m1 : Metrics) (samples : list string) :
  lineSamples EscapeMetricName line m metric labels0 m1 samples →
  Forall (λ e, MetricName e = metric) (LineToEvents line m).1.
Proof.
  intros Hline. rewrite (LineToEvents_samples _ _ _ _ _ _ _ _ Hline).
  apply samplesLoop_names.
Qed.

Lemma sample_not_timer metric smpl st :
  isTimer (typeOf smpl) = false → (length (sample metric smpl st).1 ≤ 1)%nat.
Proof.
  unfold typeOf, line.sample. intros Htimer.
  destruct (_ || _); [simpl; lia|].
  destruct (strings.Split smpl "|") as [|valueStr [|statType rest]];
    [simpl; lia..|].
  cbn [nth] in Htimer.
  destruct (ParseFloat valueStr) as [v [err|]]; [simpl; lia|].
  destruct (existsb _ rest); [simpl; lia|].
  rewrite (modifiers_not_timer _ _ _ Htimer).
  match goal with
  | |- context [emit ?n ?t ?mt ?v ?r ?l ?m] =>
      pose proof (emit_length n t mt v r l m) as Hlen;
      destruct (emit n t mt v r l m)
  end.
  done.
Qed.

Lemma samplesLoop_not_timer metric samples st :
  Forall (λ smpl, isTimer (typeOf smpl) = false) samples →
  (length (samplesLoop metric samples st).1 ≤ length samples)%nat.
Proof.
  intros Hsamples. revert st.
  induction Hsamples as [|s samples Hs _ IH]; intros st; simpl; [done|].
  pose proof (sample_not_timer metric s st Hs) as Hlen.
  destruct (sample metric s st) as [es st1].
  specialize (IH st1). destruct (samplesLoop metric samples st1) as [es' st2].
  cbn [fst] in *. rewrite length_app. lia.
Qed.

(** X18. Only timers are multiplied: a line none of whose samples has a
    timer type ([ms], [h], [d]) gives at most one event per sample,
    whatever sample rates it carries. *)
Theorem only_timers_multiply (line : string) (m : Metrics) (metric : string)
    (labels0 : gmap string string) (m1 : Metrics) (samples : list string) :
  lineSamples EscapeMetricName line m metric labels0 m1 samples →
  Forall (λ smpl, isTimer (typeOf smpl) = false) samples →
  (length (LineToEvents line m).1 ≤ length samples)%nat.
Proof.
  intros Hline Hsamples. rewrite (LineToEvents_samples _ _ _ _ _ _ _ _ Hline).
  by apply samplesLoop_not_timer.
Qed.

End SampleFacts.

(** ** The listeners *)

Section ListenerMore.

Variable EscapeMetricName : string → string.
Variable ParseFloat : string → float * option NumError.
Context {H : Type} `{!EventHandler H}.

Abbreviation LineToEvents := (LineToEvents EscapeMetricName ParseFloat).
Abbreviation handleLine := (listener.handleLine EscapeMetricName ParseFloat).
Abbreviation readLoop := (listener.readLoop EscapeMetricName ParseFloat).
Abbreviation HandleConn := (listener.HandleConn EscapeMetricName ParseFloat).
Abbreviation UDP_HandlePacket := (listener.UDP_HandlePacket EscapeMetricName ParseFloat).
Abbreviation Unixgram_HandlePacket :=
  (listener.Unixgram_HandlePacket EscapeMetricName ParseFloat).
Abbreviation UDP_Listen := (listener.UDP_Listen EscapeMetricName ParseFloat).
Abbreviation Unixgram_Listen := (listener.Unixgram_Listen EscapeMetricName ParseFloat).

Lemma readLoop_counters rs (st : H * listener.Telemetry) :
  (∃ used, rs = used ++ (readLoop rs st).1) ∧
  listener.udpPackets (readLoop rs st).2.2 = listener.udpPackets st.2 ∧
  listener.unixgramPackets (readLoop rs st).2.2 = listener.unixgramPackets st.2 ∧
  listener.tcpConnections (readLoop rs st).2.2 = listener.tcpConnections st.2 ∧
  (listener.tcpErrors st.2 ≤ listener.tcpErrors (readLoop rs st).2.2)%nat ∧
  (listener.tcpLineTooLong st.2 ≤ listener.tcpLineTooLong (readLoop rs st).2.2)%nat ∧
  (listener.tcpErrors (readLoop rs st).2.2 + listener.tcpLineTooLong (readLoop rs st).2.2
   ≤ S (listener.tcpErrors st.2 + listener.tcpLineTooLong st.2))%nat ∧
  (listener.linesReceived st.2 ≤ listener.linesReceived (readLoop rs st).2.2)%nat ∧
  (listener.linesReceived (readLoop rs st).2.2 + length (readLoop rs st).1
   ≤ listener.linesReceived st.2 + length rs)%nat.
Proof.
  revert st. induction rs as [|r rs IH]; intros st.
  - simpl. split; [by exists []|]. repeat split; lia.
  - destruct r as [ln [|]|[|msg]]; cbn [listener.readLoop].
    + split; [by exists [listener.Line ln true]|]. simpl. repeat split; lia.
    + destruct (IH (handleLine ln st)) as ([used Hused] & Hrest).
      destruct (handleLine_counters EscapeMetricName ParseFloat ln st)
        as [(Hu & Hx & Hc & He & Hl) Hlines].
      split.
      { exists (listener.Line ln false :: used). simpl. by rewrite <- Hused. }
      rewrite <- Hu, <- Hx, <- Hc, <- He, <- Hl.
      destruct Hrest as (-> & -> & -> & ? & ? & ? & ? & ?).
      cbn [length]. repeat split; lia.
    + split; [by exists [listener.Failed listener.EOF]|]. simpl. repeat split; lia.
    + split; [by exists [listener.Failed (listener.OtherError msg)]|].
      simpl. repeat split; lia.
Qed.

(** X19. Whatever the reader returns, [HandleConn] closes the connection
    and counts it once in [tcpConnections]; it reads a prefix of what the
    reader holds; it counts at most one failure, in [tcpErrors] or in
    [tcpLineTooLong]; it counts at most one line per result read; and it
    leaves the counters of the datagram listeners alone. *)
Theorem HandleConn_always_closes (c : listener.Conn) (st : H * listener.Telemetry) :
  let out := HandleConn c st in
  listener.closed out.1 = true ∧
  (∃ used, listener.reads c = used ++ listener.reads out.1) ∧
  listener.tcpConnections out.2.2 = S (listener.tcpConnections st.2) ∧
  (listener.tcpErrors st.2 ≤ listener.tcpErrors out.2.2)%nat ∧
  (listener.tcpLineTooLong st.2 ≤ listener.tcpLineTooLong out.2.2)%nat ∧
  (listener.tcpErrors out.2.2 + listener.tcpLineTooLong out.2.2
   ≤ S (listener.tcpErrors st.2 + listener.tcpLineTooLong st.2))%nat ∧
  (listener.linesReceived st.2 ≤ listener.linesReceived out.2.2)%nat ∧
  (listener.linesReceived out.2.2 + length (listener.reads out.1)
   ≤ listener.linesReceived st.2 + length (listener.reads c))%nat ∧
  listener.udpPackets out.2.2 = listener.udpPackets st.2 ∧
  listener.unixgramPackets out.2.2 = listener.unixgramPackets st.2.
Proof.
  intros out. unfold out, listener.HandleConn.
  pose proof (readLoop_counters (listener.reads c)
                (st.1, listener.incTcpConnections st.2)) as Hloop.
  destruct (readLoop (listener.reads c) _) as [rest st'].
  cbn [fst snd listener.reads listener.closed] in *.
  destruct Hloop as (Hused & -> & -> & -> & ? & ? & ? & ? & ?).
  simpl in *. by repeat split.
Qed.

(** X20. A connection that ends after complete lines, by [io.EOF] from
    the reader, has every line handled in order and counts no failure:
    [tcpErrors] and [tcpLineTooLong] stay as they are, and what the reader
    holds after the [io.EOF] stays unread. *)
Theorem HandleConn_eof (lns : list string) (rest : list listener.ReadLineResult)
    (st : H * listener.Telemetry) :
  let st1 := fold_left (λ st ln, handleLine ln st) lns
               (st.1, listener.incTcpConnections st.2) in
  HandleConn {| listener.reads := complete lns ++ listener.Failed listener.EOF :: rest;
                listener.closed := false |} st
    = ({| listener.reads := rest; listener.closed := true |}, st1) ∧
  HandleConn {| listener.reads := complete lns; listener.closed := false |} st
    = ({| listener.reads := []; listener.closed := true |}, st1) ∧
  listener.tcpErrors st1.2 = listener.tcpErrors st.2 ∧
  listener.tcpLineTooLong st1.2 = listener.tcpLineTooLong st.2 ∧
  listener.tcpConnections st1.2 = S (listener.tcpConnections st.2) ∧
  listener.linesReceived st1.2 = (listener.linesReceived st.2 + length lns)%nat.
Proof.
  intros st1.
  destruct (handleLines_counters EscapeMetricName ParseFloat lns
              (st.1, listener.incTcpConnections st.2))
    as [(_ & _ & Hconn & Herr & Hlong) Hlines].
  fold st1 in Hconn, Herr, Hlong, Hlines. simpl in Hconn, Herr, Hlong, Hlines.
  split; [|split].
  - unfold listener.HandleConn. simpl listener.reads.
    by rewrite (readLoop_complete EscapeMetricName ParseFloat).
  - unfold listener.HandleConn. simpl listener.reads.
    rewrite <- (app_nil_r (complete lns)).
    by rewrite (readLoop_complete EscapeMetricName ParseFloat).
  - by repeat split.
Qed.

Lemma LineToEvents_events ln m :
  (LineToEvents ln m).1 = (LineToEvents ln noMetrics).1.
Proof.
  pose proof (LineToEvents_shift EscapeMetricName ParseFloat ln m noMetrics) as Hshift.
  rewrite addMetrics_noMetrics in Hshift. by rewrite Hshift.
Qed.

Lemma handleLine_queue ln (st : H * listener.Telemetry) :
  ((handleLine ln st).1, listener.eventsFlushed (handleLine ln st).2)
  = Queue (LineToEvents ln noMetrics).1 (listener.eventsFlushed st.2) st.1 ∧
  listener.parser (handleLine ln st).2 = (LineToEvents ln (listener.parser st.2)).2.
Proof.
  unfold listener.handleLine.
  rewrite <- (LineToEvents_events ln (listener.parser st.2)).
  destruct (LineToEvents ln (listener.parser st.2)) as [events m].
  cbn [fst snd].
  by destruct (Queue events (listener.eventsFlushed st.2) st.1) as [h flushed].
Qed.

Lemma handleLines_queue lns (st : H * listener.Telemetry) :
  let calls := fold_left (λ hf ln, Queue (LineToEvents ln noMetrics).1 hf.2 hf.1)
                         lns (st.1, listener.eventsFlushed st.2) in
  (fold_left (λ st ln, handleLine ln st) lns st).1 = calls.1 ∧
  listener.eventsFlushed (fold_left (λ st ln, handleLine ln st) lns st).2 = calls.2 ∧
  listener.parser (fold_left (λ st ln, handleLine ln st) lns st).2
  = fold_left (λ m ln, (LineToEvents ln m).2) lns (listener.parser st.2).
Proof.
  revert st. induction lns as [|ln lns IH]; intros st; cbn [fold_left]; [done|].
  destruct (IH (handleLine ln st)) as (-> & -> & ->).
  destruct (handleLine_queue ln st) as [-> ->]. by cbn [fst snd].
Qed.

(** X21. A packet is one [Queue] call per line, in the order of the
    lines, each with the events of that line alone: what the handler is
    handed does not depend on the counters, nor on the lines before. The
    counters of the parser go through the lines in the same order. Both
    datagram listeners do so. *)
Theorem HandlePacket_queues (packet : string) (st : H * listener.Telemetry) :
  let lines := strings.Split packet "010" in
  let calls := fold_left (λ hf ln, Queue (LineToEvents ln noMetrics).1 hf.2 hf.1)
                         lines (st.1, listener.eventsFlushed st.2) in
  let m := fold_left (λ m ln, (LineToEvents ln m).2) lines (listener.parser st.2) in
  (UDP_HandlePacket packet st).1 = calls.1 ∧
  listener.eventsFlushed (UDP_HandlePacket packet st).2 = calls.2 ∧
  listener.parser (UDP_HandlePacket packet st).2 = m ∧
  (Unixgram_HandlePacket packet st).1 = calls.1 ∧
  listener.eventsFlushed (Unixgram_HandlePacket packet st).2 = calls.2 ∧
  listener.parser (Unixgram_HandlePacket packet st).2 = m.
Proof.
  intros lines calls m.
  destruct (handleLines_queue lines (st.1, listener.incUdpPackets st.2))
    as (Hu1 & Hu2 & Hu3).
  destruct (handleLines_queue lines (st.1, listener.incUnixgramPackets st.2))
    as (Hx1 & Hx2 & Hx3).
  by repeat split.
Qed.

Lemma UDP_HandlePacket_counters packet (st : H * listener.Telemetry) :
  listener.udpPackets (UDP_HandlePacket packet st).2 = S (listener.udpPackets st.2) ∧
  listener.unixgramPackets (UDP_HandlePacket packet st).2
    = listener.unixgramPackets st.2 ∧
  listener.linesReceived (UDP_HandlePacket packet st).2
    = (listener.linesReceived st.2 + S (strings.Count packet "010"))%nat.
Proof.
  unfold listener.UDP_HandlePacket.
  destruct (handleLines_counters EscapeMetricName ParseFloat
              (strings.Split packet "010") (st.1, listener.incUdpPackets st.2))
    as [(Hu & Hx & _) Hlines].
  rewrite Hu, Hx, Hlines, Split_length. by simpl.
Qed.

Lemma Unixgram_HandlePacket_counters packet (st : H * listener.Telemetry) :
  listener.unixgramPackets (Unixgram_HandlePacket packet st).2
    = S (listener.unixgramPackets st.2) ∧
  listener.udpPackets (Unixgram_HandlePacket packet st).2 = listener.udpPackets st.2 ∧
  listener.linesReceived (Unixgram_HandlePacket packet st).2
    = (listener.linesReceived st.2 + S (strings.Count packet "010"))%nat.
Proof.
  unfold listener.Unixgram_HandlePacket.
  destruct (handleLines_counters EscapeMetricName ParseFloat
              (strings.Split packet "010") (st.1, listener.incUnixgramPackets st.2))
    as [(Hu & Hx & _) Hlines].
  rewrite Hu, Hx, Hlines, Split_length. by simpl.
Qed.

Lemma UDP_packets_counters packets (st : H * listener.Telemetry) :
  listener.udpPackets (fold_left (λ st p, UDP_HandlePacket p st) packets st).2
    = (listener.udpPackets st.2 + length packets)%nat ∧
  listener.unixgramPackets (fold_left (λ st p, UDP_HandlePacket p st) packets st).2
    = listener.unixgramPackets st.2 ∧
  listener.linesReceived (fold_left (λ st p, UDP_HandlePacket p st) packets st).2
    = (listener.linesReceived st.2
       + sum_list_with (λ p, S (strings.Count p "010")) packets)%nat.
Proof.
  revert st. induction packets as [|p packets IH]; intros st;
    cbn [fold_left sum_list_with length]; [repeat split; lia|].
  destruct (IH (UDP_HandlePacket p st)) as (-> & -> & ->).
  destruct (UDP_HandlePacket_counters p st) as (-> & -> & ->).
  repeat split; lia.
Qed.

Lemma Unixgram_packets_counters packets (st : H * listener.Telemetry) :
  listener.unixgramPackets
    (fold_left (λ st p, Unixgram_HandlePacket p st) packets st).2
    = (listener.unixgramPackets st.2 + length packets)%nat ∧
  listener.udpPackets (fold_left (λ st p, Unixgram_HandlePacket p st) packets st).2
    = listener.udpPackets st.2 ∧
  listener.linesReceived (fold_left (λ st p, Unixgram_HandlePacket p st) packets st).2
    = (listener.linesReceived st.2
       + sum_list_with (λ p, S (strings.Count p "010")) packets)%nat.
Proof.
  revert st. induction packets as [|p packets IH]; intros st;
    cbn [fold_left sum_list_with length]; [repeat split; lia|].
  destruct (IH (Unixgram_HandlePacket p st)) as (-> & -> & ->).
  destruct (Unixgram_HandlePacket_counters p st) as (-> & -> & ->).
  repeat split; lia.
Qed.

Lemma UDP_Listen_datagrams packets rs (st : H * listener.Telemetry) :
  UDP_Listen (map listener.Datagram packets ++ rs) st
  = UDP_Listen rs (fold_left (λ st p, UDP_HandlePacket p st) packets st).
Proof.
  revert st. induction packets as [|p packets IH]; intros st; simpl; [done|].
  apply IH.
Qed.

Lemma Unixgram_Listen_datagrams packets rs (st : H * listener.Telemetry) :
  Unixgram_Listen (map listener.Datagram packets ++ rs) st
  = Unixgram_Listen rs (fold_left (λ st p, Unixgram_HandlePacket p st) packets st).
Proof.
  revert st. induction packets as [|p packets IH]; intros st; simpl; [done|].
  apply IH.
Qed.

(** X22. The UDP [Listen] loop handles every datagram read before the
    first read error, in order, and returns at that error whatever its
    text is; what the socket holds after it stays unread. [udpPackets]
    grows by the number of datagrams and [linesReceived] by the number of
    their lines, a newline byte more than each datagram has. *)
Theorem UDP_Listen_until_error (packets : list string) (text : string)
    (rest : list listener.ReadResult) (st : H * listener.Telemetry) :
  let st' := fold_left (λ st p, UDP_HandlePacket p st) packets st in
  UDP_Listen (map listener.Datagram packets ++ listener.ReadFailed text :: rest) st
    = (rest, st') ∧
  listener.udpPackets st'.2 = (listener.udpPackets st.2 + length packets)%nat ∧
  listener.unixgramPackets st'.2 = listener.unixgramPackets st.2 ∧
  listener.linesReceived st'.2
    = (listener.linesReceived st.2
       + sum_list_with (λ p, S (strings.Count p "010")) packets)%nat.
Proof.
  intros st'. split; [by rewrite UDP_Listen_datagrams|].
  apply UDP_packets_counters.
Qed.

(** X23. The Unixgram [Listen] loop handles every datagram read before
    the first read error, in order. At that error it returns when the
    text ends in "use of closed network connection", and ends the process
    with status 1 otherwise; the counters are the same in both cases. *)
Theorem Unixgram_Listen_until_error (packets : list string) (text : string)
    (rest : list listener.ReadResult) (st : H * listener.Telemetry) :
  let st' := fold_left (λ st p, Unixgram_HandlePacket p st) packets st in
  let leave := if strings.HasSuffix text "use of closed network connection"
               then listener.Returned else listener.Exited 1 in
  Unixgram_Listen (map listener.Datagram packets ++ listener.ReadFailed text :: rest) st
    = (leave, rest, st') ∧
  Unixgram_Listen
    (map listener.Datagram packets
       ++ listener.ReadFailed ("read unixgram: " +:+ "use of closed network connection")
       :: rest) st
    = (listener.Returned, rest, st') ∧
  listener.unixgramPackets st'.2
    = (listener.unixgramPackets st.2 + length packets)%nat ∧
  listener.udpPackets st'.2 = listener.udpPackets st.2 ∧
  listener.linesReceived st'.2
    = (listener.linesReceived st.2
       + sum_list_with (λ p, S (strings.Count p "010")) packets)%nat.
Proof.
  intros st' leave. split; [|split; [|apply Unixgram_packets_counters]].
  - rewrite Unixgram_Listen_datagrams. cbn [listener.Unixgram_Listen].
    unfold leave. by destruct (strings.HasSuffix text _).
  - by rewrite Unixgram_Listen_datagrams.
Qed.

End ListenerMore.

(** ** package util *)

Section UtilFacts.

Variable SplitHostPort : string → (string * string) + string.
Variable ResolveIPAddr : string → string → util.IPAddr + string.
Variable Atoi : string → Z * option NumError.

Abbreviation IPPortFromString :=
  (util.IPPortFromString SplitHostPort ResolveIPAddr Atoi).
Abbreviation UDPAddrFromString :=
  (util.UDPAddrFromString SplitHostPort ResolveIPAddr Atoi).
Abbreviation TCPAddrFromString :=
  (util.TCPAddrFromString SplitHostPort ResolveIPAddr Atoi).

Lemma IPPortFromString_inl addr ip port :
  IPPortFromString addr = inl (ip, port) →
  0 ≤ port ≤ 65535 ∧
  ∃ host portStr,
    SplitHostPort addr = inl (host, portStr) ∧
    ResolveIPAddr "ip" (if String.eqb host "" then "0.0.0.0" else host) = inl ip ∧
    Atoi portStr = (port, None).
Proof.
  unfold util.IPPortFromString.
  destruct (SplitHostPort addr) as [[host portStr]|e] eqn:Hsplit; [|done].
  destruct (ResolveIPAddr "ip" _) as [ip'|e] eqn:Hresolve; [|done].
  destruct (Atoi portStr) as [port' [e|]] eqn:Hport; [done|]. cbn [orb].
  destruct (Z.ltb_spec port' 0); [done|].
  destruct (Z.ltb_spec 65535 port'); [done|].
  cbn [orb]. intros [= <- <-]. split; [lia|]. by exists host, portStr.
Qed.

(** X24. When [IPPortFromString] returns an address, the port is within
    0..65535 and is what [strconv.Atoi] read, without an error, from the
    part after the colon; the IP is what [net.ResolveIPAddr] gave for the
    host, and for 0.0.0.0 when the host is empty. *)
Theorem IPPortFromString_port_range (addr : string) (ip : util.IPAddr) (port : Z) :
  IPPortFromString addr = inl (ip, port) →
  0 ≤ port ≤ 65535 ∧
  ∃ host portStr,
    SplitHostPort addr = inl (host, portStr) ∧
    ResolveIPAddr "ip" (if String.eqb host "" then "0.0.0.0" else host) = inl ip ∧
    Atoi portStr = (port, None) ∧
    (host = "" → ResolveIPAddr "ip" "0.0.0.0" = inl ip).
Proof.
  intros (Hrange & host & portStr & Hsplit & Hresolve & Hport)%IPPortFromString_inl.
  split; [done|]. exists host, portStr. repeat split; try done.
  by intros ->.
Qed.

(** X25. A port that [strconv.Atoi] reads without an error but that is
    outside of 0..65535 is turned down as a bad port, and the error names
    the port next to a [nil] error; a port [Atoi] turns down is reported
    with the error of [Atoi]. The host is resolved before the port is
    looked at: neither happens when the host does not resolve. *)
Theorem IPPortFromString_bad_port (addr host portStr : string)
    (port : Z) (err : option NumError) :
  SplitHostPort addr = inl (host, portStr) →
  Atoi portStr = (port, err) →
  err ≠ None ∨ port < 0 ∨ 65535 < port →
  match ResolveIPAddr "ip" (if String.eqb host "" then "0.0.0.0" else host) with
  | inl _ => IPPortFromString addr = inr (util.BadPort portStr err)
  | inr e => IPPortFromString addr
             = inr (util.Unresolvable
                      (if String.eqb host "" then "0.0.0.0" else host) e)
  end.
Proof.
  intros Hsplit Hport Hbad. unfold util.IPPortFromString. rewrite Hsplit.
  destruct (ResolveIPAddr "ip" _) as [ip|e]; [|done].
  rewrite Hport. destruct err as [e|]; [done|]. cbn [orb].
  destruct Hbad as [?|[Hlow|Hhigh]]; [done| |].
  - by destruct (Z.ltb_spec port 0); [|lia].
  - destruct (Z.ltb_spec port 0); [done|].
    by destruct (Z.ltb_spec 65535 port); [|lia].
Qed.


End UtilFacts.

(** * The parser at work

    [LineToEvents] with the escaping of the spec and the decimal fragment of
    [strconv.ParseFloat], on lines of the listener test and on the inputs
    the statements above are applied to. *)

Ltac compute_eq := vm_compute; reflexivity.

(** A line that goes through the loop over its samples: colon form
    ([multi]) or DogStatsD form ([dogstatsd]). *)
Ltac line_samples mode :=
  unfold lineSamples; eexists _, _, _;
  split; [compute_eq|];
  split; [discriminate|];
  split; [compute_eq|];
  split; [compute_eq|];
  split; [reflexivity|];
  lazymatch mode with
  | true => left; split; [compute_eq|]; split; reflexivity
  | false => right; split; [compute_eq|]; compute_eq
  end.

Example simple_counter :
  LineToEvents mapper.EscapeMetricName strconv.ParseDecimal "foo:2|c" noMetrics
  = ([CounterEvent "foo" 2 ∅], incSamplesReceived noMetrics).
Proof. compute_eq. Qed.

Example gauge_decrement :
  (LineToEvents mapper.EscapeMetricName strconv.ParseDecimal "foo:-10|g" noMetrics).1
  = [GaugeEvent "foo" (-10) true ∅].
Proof. compute_eq. Qed.

Example librato_tags_escaped :
  (LineToEvents mapper.EscapeMetricName strconv.ParseDecimal
     "foo#09digits=0,tag.with.dots=1:100|c" noMetrics).1
  = [CounterEvent "foo" 100 (<["_09digits" := "0"]> (<["tag_with_dots" := "1"]> ∅))].
Proof. compute_eq. Qed.

Example datadog_tags_multiple_colons :
  (LineToEvents mapper.EscapeMetricName strconv.ParseDecimal
     "foo:100|c|@0.1|#tag1:foo:bar" noMetrics).1
  = [CounterEvent "foo" 1000 (<["tag1" := "foo:bar"]> ∅)].
Proof. compute_eq. Qed.

Example timings_with_sampling_factor :
  (LineToEvents mapper.EscapeMetricName strconv.ParseDecimal
     "foo.timing:0.5|ms|@0.1" noMetrics).1
  = replicate 10 (TimerEvent "foo.timing" 0.5 ∅).
Proof. compute_eq. Qed.

Example illegal_sampling_factor :
  LineToEvents mapper.EscapeMetricName strconv.ParseDecimal "foo:1|c|@bar" noMetrics
  = ([CounterEvent "foo" 1 ∅],
     incSampleErrors "invalid_sample_factor" (incSamplesReceived noMetrics)).
Proof. compute_eq. Qed.

Example zero_sampling_factor :
  LineToEvents mapper.EscapeMetricName strconv.ParseDecimal "foo:2|c|@0" noMetrics
  = ([CounterEvent "foo" 2 ∅], incSamplesReceived noMetrics).
Proof. compute_eq. Qed.

Example empty_component :
  LineToEvents mapper.EscapeMetricName strconv.ParseDecimal "foo:1|c|" noMetrics
  = ([], incSampleErrors "malformed_component" (incSamplesReceived noMetrics)).
Proof. compute_eq. Qed.

Example statsd_set_rejected :
  LineToEvents mapper.EscapeMetricName strconv.ParseDecimal "foo:2|s" noMetrics
  = ([], incSampleErrors "illegal_event" (incSamplesReceived noMetrics)).
Proof. compute_eq. Qed.

Example udp_packet_of_two_lines :
  (listener.UDP_HandlePacket mapper.EscapeMetricName strconv.ParseDecimal
     ("foo:200|ms:300|ms:5|c|@0.1:6|g" +:+ String "010" "bar:1|c:5|ms")
     ([], noTelemetry)).1
  = [[TimerEvent "foo" 200 ∅; TimerEvent "foo" 300 ∅;
      CounterEvent "foo" 50 ∅; GaugeEvent "foo" 6 false ∅];
     [CounterEvent "bar" 1 ∅; TimerEvent "bar" 5 ∅]].
Proof. compute_eq. Qed.

(** The test of the queue: 13 events into a queue of threshold 5 are two
    batches of 5 at once, and the 3 that stay come with the next flush. *)
Example threshold_flush (e : Event) :
  (λ eq, (map length (queue.C eq), queue.Len eq))
    <$> queue.Queue (replicate 13 e) (queue.NewEventQueue 5)
  = Some ([5; 5], 3)%nat ∧
  (λ eq, map length (queue.C (queue.FlushUnsafe eq)))
    <$> queue.Queue (replicate 13 e) (queue.NewEventQueue 5)
  = Some [5; 5; 3]%nat.
Proof. split; reflexivity. Qed.

(** ** The statements at concrete inputs *)

Lemma LineToEvents_invalid_utf8_witness :
  let line := "invalid" +:+ String "195" (String "040" "utf8:1|c") in
  utf8.ValidString line = false ∧
  LineToEvents mapper.EscapeMetricName strconv.ParseDecimal line noMetrics
  = ([], incSampleErrors "malformed_line" noMetrics).
Proof.
  split; [reflexivity|].
  apply (LineToEvents_invalid_utf8 mapper.EscapeMetricName strconv.ParseDecimal).
  reflexivity.
Defined.




Lemma timer_sample_rate_outside_witness :
  (1 <? 2)%float = true ∧
  LineToEvents mapper.EscapeMetricName strconv.ParseDecimal "foo:1|ms|@2" noMetrics
  = ([], incSamplesReceived noMetrics).
Proof.
  split; [reflexivity|].
  destruct (timer_sample_rate_outside mapper.EscapeMetricName strconv.ParseDecimal
              "foo:1|ms|@2" noMetrics "foo" ∅ noMetrics
              [] [] "1|ms|@2" "1" "ms" "2" [String "@" "2"] 1 2)
    as (_ & _ & _ & _ & _ & Hline).
  - line_samples false.
  - reflexivity.
  - left; reflexivity.
  - constructor.
  - compute_eq.
  - compute_eq.
  - left; reflexivity.
  - compute_eq.
Defined.

Lemma gauge_sample_ignores_rate_witness :
  (LineToEvents mapper.EscapeMetricName strconv.ParseDecimal "foo:3|g|@0.2" noMetrics).1
  = [GaugeEvent "foo" 3 false ∅] ∧
  (LineToEvents mapper.EscapeMetricName strconv.ParseDecimal "foo:3|g" noMetrics).1
  = [GaugeEvent "foo" 3 false ∅].
Proof.
  destruct (gauge_sample_ignores_rate mapper.EscapeMetricName strconv.ParseDecimal
              "foo:3|g|@0.2" noMetrics "foo" ∅ noMetrics
              [] [] "3|g|@0.2" "3" [String "@" "0.2"] 3) as [_ Hline].
  - line_samples false.
  - reflexivity.
  - simpl; lia.
  - repeat constructor; discriminate.
  - compute_eq.
  - split; [|compute_eq]. rewrite Hline. compute_eq.
Defined.

Lemma mixed_tagging_styles_witness :
  LineToEvents mapper.EscapeMetricName strconv.ParseDecimal
    "foo#tag1=foo:100|c|#tag1:bar" noMetrics
  = ([], incSampleErrors "mixed_tagging_styles" noMetrics).
Proof.
  destruct (mixed_tagging_styles mapper.EscapeMetricName strconv.ParseDecimal
              "foo#tag1=foo:100|c|#tag1:bar" noMetrics
              "foo#tag1=foo" "100|c|#tag1:bar" "foo" "tag1=foo" "tag1=foo"
              "tag1" "foo") as (_ & _ & _ & _).
  - reflexivity.
  - reflexivity.
  - reflexivity.
  - left.
  - reflexivity.
  - discriminate.
  - discriminate.
  - reflexivity.
  - compute_eq.
Defined.

Lemma EventQueue_threshold_batches_witness (e := CounterEvent "foo" 1 ∅) :
  ∃ eq, queue.QueueAll [replicate 6 e; replicate 7 e] (queue.NewEventQueue 5)
        = Some eq ∧
    map length (queue.C eq) = [5; 5]%nat ∧ length (queue.q eq) = 3%nat.
Proof.
  destruct (EventQueue_threshold_batches 5 2 3 [replicate 6 e; replicate 7 e])
    as (eq & Hrun & _).
  - lia.
  - reflexivity.
  - exists eq. split; [exact Hrun|].
    vm_compute in Hrun. injection Hrun as <-. split; reflexivity.
Defined.

(** C7 at a rate beyond the largest float. [ParseFloat] answers [+Inf]
    and a range error: the line counts an invalid sample factor and yet
    applies the rate, so that the counter is scaled to zero and the timer
    is dropped. *)
Theorem range_error_rate_is_applied :
  strconv.ParseDecimal "1e999" = (infinity, Some ErrRange) ∧
  LineToEvents mapper.EscapeMetricName strconv.ParseDecimal "foo:1|c|@1e999" noMetrics
  = ([CounterEvent "foo" 0 ∅],
     incSampleErrors "invalid_sample_factor" (incSamplesReceived noMetrics)) ∧
  LineToEvents mapper.EscapeMetricName strconv.ParseDecimal "foo:1|ms|@1e999" noMetrics
  = ([], incSampleErrors "invalid_sample_factor" (incSamplesReceived noMetrics)).
Proof. repeat split; compute_eq. Qed.

(** ** The further properties at concrete inputs *)

Lemma parseTag_stores_witness :
  parseTag mapper.EscapeMetricName "tag.with.dots=a=b" "=" ∅ 0
  = (<["tag_with_dots" := "a=b"]> ∅, 0%nat).
Proof.
  destruct (parseTag_stores mapper.EscapeMetricName "tag.with.dots" "a=b" "="
              ∅ 0%nat) as [Hstored _].
  - discriminate.
  - discriminate.
  - reflexivity.
  - exact Hstored.
Defined.

Lemma last_tag_wins_witness :
  (parseNameTags mapper.EscapeMetricName "a=1,b=2,a=3" ∅ 0).1 !! "a" = Some "3".
Proof.
  refine (last_tag_wins mapper.EscapeMetricName "a=1,b=2" "a" "3" ∅ 0%nat
            _ _ _ _ _).
  - discriminate.
  - discriminate.
  - reflexivity.
  - reflexivity.
  - reflexivity.
Defined.

Lemma LineToEvents_malformed_line_witness :
  LineToEvents mapper.EscapeMetricName strconv.ParseDecimal "foo" noMetrics
  = ([], incSampleErrors "malformed_line" noMetrics) ∧
  LineToEvents mapper.EscapeMetricName strconv.ParseDecimal ":1|c" noMetrics
  = ([], incSampleErrors "malformed_line" noMetrics).
Proof.
  split.
  - apply (LineToEvents_malformed_line mapper.EscapeMetricName strconv.ParseDecimal).
    + discriminate.
    + left. reflexivity.
  - apply (LineToEvents_malformed_line mapper.EscapeMetricName strconv.ParseDecimal).
    + discriminate.
    + right. by exists "1|c".
Defined.

Lemma samples_are_counted_witness :
  samplesReceived
    (LineToEvents mapper.EscapeMetricName strconv.ParseDecimal
       "foo:200|ms:bar:5|c|@0.5:6|g" noMetrics).2 = 4%nat.
Proof.
  destruct (samples_are_counted mapper.EscapeMetricName strconv.ParseDecimal
              "foo:200|ms:bar:5|c|@0.5:6|g" noMetrics "foo" ∅ noMetrics
              ["200|ms"; "bar"; "5|c|@0.5"; "6|g"]) as [Hcount _].
  - line_samples false.
  - exact Hcount.
Defined.

Lemma sample_malformed_component_witness :
  LineToEvents mapper.EscapeMetricName strconv.ParseDecimal "foo:1:2|c" noMetrics
  = ([CounterEvent "foo" 2 ∅],
     incSamplesReceived
       (incSampleErrors "malformed_component" (incSamplesReceived noMetrics))).
Proof.
  destruct (sample_malformed_component mapper.EscapeMetricName strconv.ParseDecimal
              "foo:1:2|c" noMetrics "foo" ∅ noMetrics [] "1" ["2|c"])
    as [_ Hline].
  - line_samples false.
  - left. reflexivity.
  - rewrite Hline. compute_eq.
Defined.

Lemma sample_malformed_value_witness :
  LineToEvents mapper.EscapeMetricName strconv.ParseDecimal "foo:bar|c:2|c" noMetrics
  = ([CounterEvent "foo" 2 ∅],
     incSamplesReceived
       (incSampleErrors "malformed_value" (incSamplesReceived noMetrics))).
Proof.
  destruct (sample_malformed_value mapper.EscapeMetricName strconv.ParseDecimal
              "foo:bar|c:2|c" noMetrics "foo" ∅ noMetrics [] "bar|c" ["2|c"]
              "bar" "c" [] 0 ErrSyntax) as [_ Hline].
  - line_samples false.
  - reflexivity.
  - simpl; lia.
  - compute_eq.
  - rewrite Hline. compute_eq.
Defined.

Lemma sample_empty_component_witness :
  LineToEvents mapper.EscapeMetricName strconv.ParseDecimal "foo:1|c|#a:b|" noMetrics
  = ([], incSampleErrors "malformed_component" (incSamplesReceived noMetrics)).
Proof.
  destruct (sample_empty_component mapper.EscapeMetricName strconv.ParseDecimal
              "foo:1|c|#a:b|" noMetrics "foo" ∅ noMetrics [] "1|c|#a:b|" []
              "1" "c" [String "#" "a:b"; ""] 1) as (_ & _ & Hline).
  - line_samples true.
  - reflexivity.
  - simpl; lia.
  - compute_eq.
  - do 2 constructor.
  - rewrite Hline. compute_eq.
Defined.

Lemma sample_illegal_event_witness :
  count "illegal_event"
    (sampleErrors
       (sample mapper.EscapeMetricName strconv.ParseDecimal "foo" "2|s|@0.1"
               (∅, noMetrics)).2.2) = 1%nat ∧
  (LineToEvents mapper.EscapeMetricName strconv.ParseDecimal "foo:2|s|@0.1"
     noMetrics).1 = [].
Proof.
  destruct (sample_illegal_event mapper.EscapeMetricName strconv.ParseDecimal
              "foo:2|s|@0.1" noMetrics "foo" ∅ noMetrics [] "2|s|@0.1" []
              "2" "s" [String "@" "0.1"] 2) as (_ & Hcount & Hline).
  - line_samples false.
  - reflexivity.
  - simpl; lia.
  - repeat constructor; discriminate.
  - compute_eq.
  - reflexivity.
  - split; [exact Hcount|]. rewrite Hline. compute_eq.
Defined.

Lemma sample_plain_witness :
  LineToEvents mapper.EscapeMetricName strconv.ParseDecimal "foo#a=b:-3|g" noMetrics
  = ([GaugeEvent "foo" (-3) true (<["a" := "b"]> ∅)],
     incTagsReceived (incSamplesReceived noMetrics)).
Proof.
  destruct (sample_plain mapper.EscapeMetricName strconv.ParseDecimal
              "foo#a=b:-3|g" noMetrics "foo" (<["a" := "b"]> ∅) noMetrics
              [] "-3|g" [] "-3" "g" (-3)) as (_ & _ & Hline).
  - line_samples false.
  - reflexivity.
  - compute_eq.
  - reflexivity.
  - rewrite Hline. compute_eq.
Defined.


Lemma events_share_the_labels_witness :
  Forall (λ e, Labels e = <["tag1" := "bar"]> ∅)
    (LineToEvents mapper.EscapeMetricName strconv.ParseDecimal
       "foo:0.5|ms|@0.5|#tag1:bar" noMetrics).1.
Proof.
  assert (Hlabels :
    (samplesLoop mapper.EscapeMetricName strconv.ParseDecimal "foo"
       ["0.5|ms|@0.5|#tag1:bar"] (∅, noMetrics)).2.1 = <["tag1" := "bar"]> ∅)
    by compute_eq.
  rewrite <- Hlabels.
  apply (events_share_the_labels mapper.EscapeMetricName strconv.ParseDecimal
           "foo:0.5|ms|@0.5|#tag1:bar" noMetrics "foo" ∅ noMetrics).
  line_samples true.
Defined.

Lemma events_carry_the_name_witness :
  Forall (λ e, MetricName e = "foo")
    (LineToEvents mapper.EscapeMetricName strconv.ParseDecimal
       "foo#a=b:1|c:2|ms" noMetrics).1.
Proof.
  apply (events_carry_the_name mapper.EscapeMetricName strconv.ParseDecimal
           "foo#a=b:1|c:2|ms" noMetrics "foo" (<["a" := "b"]> ∅) noMetrics
           ["1|c"; "2|ms"]).
  line_samples false.
Defined.


Lemma only_timers_multiply_witness :
  (length (LineToEvents mapper.EscapeMetricName strconv.ParseDecimal
             "foo:1|c|@0.1:2|g|@0.1:3|c" noMetrics).1 ≤ 3)%nat.
Proof.
  apply (only_timers_multiply mapper.EscapeMetricName strconv.ParseDecimal
           "foo:1|c|@0.1:2|g|@0.1:3|c" noMetrics "foo" ∅ noMetrics
           ["1|c|@0.1"; "2|g|@0.1"; "3|c"]).
  - line_samples false.
  - repeat constructor.
Defined.

Lemma IPPortFromString_port_range_witness :
  util.IPPortFromString SplitHostPort_plain ResolveIPAddr_any strconv.Atoi ":9125"
  = inl ({| util.IP := String "000" (String "000" (String "000" (String "000" "")));
            util.Zone := "" |}, 9125) ∧
  0 ≤ 9125 ≤ 65535.
Proof.
  split; [reflexivity|].
  destruct (IPPortFromString_port_range SplitHostPort_plain ResolveIPAddr_any
              strconv.Atoi ":9125"
              {| util.IP := String "000" (String "000" (String "000" (String "000" "")));
                 util.Zone := "" |} 9125) as [Hrange _].
  - reflexivity.
  - exact Hrange.
Defined.

Lemma IPPortFromString_bad_port_witness :
  util.IPPortFromString SplitHostPort_plain ResolveIPAddr_any strconv.Atoi ":70000"
  = inr (util.BadPort "70000" None) ∧
  util.IPPortFromString SplitHostPort_plain ResolveIPAddr_any strconv.Atoi
    "0.0.0.0:statsd"
  = inr (util.BadPort "statsd" (Some ErrSyntax)).
Proof.
  split.
  - refine (IPPortFromString_bad_port SplitHostPort_plain ResolveIPAddr_any
              strconv.Atoi ":70000" "" "70000" 70000 None _ _ _).
    + reflexivity.
    + reflexivity.
    + right. right. reflexivity.
  - refine (IPPortFromString_bad_port SplitHostPort_plain ResolveIPAddr_any
              strconv.Atoi "0.0.0.0:statsd" "0.0.0.0" "statsd" 0 (Some ErrSyntax)
              _ _ _).
    + reflexivity.
    + reflexivity.
    + left. discriminate.
Defined.


Lemma dogstatsd_leading_hash_witness :
  ParseDogStatsDTags mapper.EscapeMetricName "#tag1:bar,#tag2:baz" ∅ 0
  = ParseDogStatsDTags mapper.EscapeMetricName "tag1:bar,#tag2:baz" ∅ 0 ∧
  ParseDogStatsDTags mapper.EscapeMetricName "tag1:bar,#tag2:baz" ∅ 0
  = (<["tag1" := "bar"]> (<["tag2" := "baz"]> ∅), 0%nat).
Proof.
  split; [|compute_eq].
  destruct (dogstatsd_leading_hash mapper.EscapeMetricName "tag1:bar,#tag2:baz"
              ∅ 0%nat) as [Hsame _].
  - discriminate.
  - reflexivity.
  - exact Hsame.
Defined.
